(** * WPILOG streaming parser: a shallow embedding of [WPILogParser]

    The development follows the TypeScript class [WPILogParser] method by
    method.  The mutable fields of the class ([buffer], [reader], [cursor],
    [header]) and the byte source become one record that is threaded through
    every method; a method that can throw returns in an error monad over that
    record. *)

From Stdlib Require Import ZArith List String Ascii Bool Lia Relations.
From Stdlib.Strings Require Import Byte.
From Stdlib Require Import DecimalString.
Import ListNotations.

Local Open Scope Z_scope.

(** ** JavaScript primitives used by the parser *)

Module JS.

(** [ToInt32]: the operands of [|], [&], [<<] and [>>] are first wrapped
    into the signed 32-bit range. *)
Definition to_int32 (z : Z) : Z := (z + 2 ^ 31) mod 2 ^ 32 - 2 ^ 31.

(** [a & b] *)
Definition and (a b : Z) : Z := Z.land (to_int32 a) (to_int32 b).

(** [a | b] *)
Definition or (a b : Z) : Z := Z.lor (to_int32 a) (to_int32 b).

(** [a << k]: the shift count is taken modulo 32, the result wraps. *)
Definition shl (a k : Z) : Z := to_int32 (Z.shiftl (to_int32 a) (k mod 32)).

(** [a >> k]: sign-propagating shift of the wrapped operand. *)
Definition shr (a k : Z) : Z := Z.shiftr (to_int32 a) (k mod 32).

(** A [Uint8Array] is the list of its elements. *)
Definition Uint8Array : Type := list byte.

(** The number stored in one element. *)
Definition byte_val (b : byte) : Z := Z.of_N (Byte.to_N b).

Definition byteLength (a : Uint8Array) : Z := Z.of_nat (List.length a).

(** Relative index of [subarray] and [slice]: a negative index counts from
    the end, and every index is clamped into [0 .. length]. *)
Definition rel_index (len k : Z) : Z :=
  if k <? 0 then Z.max (len + k) 0 else Z.min k len.

(** [a.subarray(begin, end)]; [a.slice(begin, end)] selects the same
    elements (it copies them, which lists do not distinguish). *)
Definition subarray (a : Uint8Array) (begin_ end_ : Z) : Uint8Array :=
  let len := byteLength a in
  let from := rel_index len begin_ in
  let to := rel_index len end_ in
  firstn (Z.to_nat (Z.max (to - from) 0)) (skipn (Z.to_nat from) a).

(** [a.slice(begin)] *)
Definition slice (a : Uint8Array) (begin_ : Z) : Uint8Array :=
  subarray a begin_ (byteLength a).

(** [a[i]]: [None] stands for [undefined]. *)
Definition index (a : Uint8Array) (i : nat) : option byte := nth_error a i.

(** An array element used as operand of a bitwise operator: [undefined]
    converts to 0. *)
Definition operand (o : option byte) : Z :=
  match o with Some b => byte_val b | None => 0 end.

(** [String.fromCharCode(...bytes)]: one character per byte, the byte
    being its code. *)
Definition fromCharCode (bytes : Uint8Array) : string :=
  string_of_list_byte bytes.

(** A [DataView] over a whole [Uint8Array]. *)
Definition DataView : Type := Uint8Array.

(** The [n] bytes at [offset], or [None] where the view raises
    [RangeError] (negative offset, or [offset + n] past the end). *)
Definition view_bytes (dv : DataView) (offset : Z) (n : nat) : option (list byte) :=
  if (0 <=? offset) && (offset + Z.of_nat n <=? byteLength dv)
  then Some (firstn n (skipn (Z.to_nat offset) dv))
  else None.

(** [dv.getUint8(offset)] *)
Definition getUint8 (dv : DataView) (offset : Z) : option Z :=
  match view_bytes dv offset 1 with
  | Some [b0] => Some (byte_val b0)
  | _ => None
  end.

(** [dv.getUint16(offset, true)] *)
Definition getUint16 (dv : DataView) (offset : Z) : option Z :=
  match view_bytes dv offset 2 with
  | Some [b0; b1] => Some (Z.lor (byte_val b0) (Z.shiftl (byte_val b1) 8))
  | _ => None
  end.

(** [dv.getUint32(offset, true)] *)
Definition getUint32 (dv : DataView) (offset : Z) : option Z :=
  match view_bytes dv offset 4 with
  | Some [b0; b1; b2; b3] =>
      Some (Z.lor (Z.lor (byte_val b0) (Z.shiftl (byte_val b1) 8))
                  (Z.lor (Z.shiftl (byte_val b2) 16) (Z.shiftl (byte_val b3) 24)))
  | _ => None
  end.

(** Decimal rendering of an integer inside a template string. *)
Definition number_to_string (z : Z) : string :=
  NilZero.string_of_int (Z.to_int z).

End JS.

Import JS.

(** ** Data model ([types.ts]) *)

(** Numbers that this parser produces are integers; they are kept in [Z]. *)
Inductive LogValue : Type :=
| LBoolean (b : bool)
| LBigInt (n : Z)
| LNumber (n : Z)
| LString (s : string)
| LBooleanArray (bs : list bool)
| LBigIntArray (ns : list Z)
| LNumberArray (ns : list Z)
| LStringArray (ss : list string)
| LBytes (a : Uint8Array).

Inductive ControlRecordPayload : Type :=
| StartControlRecordPayload (entryId : Z) (entryName entryType metadata : string)
| FinishControlRecordPayload (entryId : Z)
| SetMetadataControlRecordPayload (entryId : Z) (metadata : string).

Record Header : Type := mkHeader { version : Z; extra : string }.

Record ControlRecord : Type := mkControlRecord {
  cr_entryId : Z;
  cr_timestamp : Z;
  cr_rawPayload : LogValue;
  cr_payload : ControlRecordPayload
}.

(** ** Errors *)

(** [TypeError] and [RangeError] are raised by the runtime (a property read
    on [undefined] or [null], a [DataView] access out of bounds).  The other
    constructors are the [throw new Error(...)] statements of the class, each
    with the values its message interpolates. *)
Inductive error : Type :=
| TypeError
| RangeError
| InvalidVariableLength (numBytes : Z)
| InvalidVersion (bytes : Z)
| InvalidMagic (magic : string)
| UnsupportedVersion (major minor : Z).

(** The message of a thrown [Error]. *)
Definition message (e : error) : option string :=
  match e with
  | TypeError | RangeError => None
  | InvalidVariableLength n =>
      Some ("Invalid variable length size: " ++ number_to_string n)%string
  | InvalidVersion b =>
      Some ("Invalid version: " ++ number_to_string b)%string
  | InvalidMagic m =>
      Some ("Invalid file. Are you sure this is a WPI Data Log file? Magic: " ++ m)%string
  | UnsupportedVersion major minor =>
      Some ("Unsupported WPI Data Log version: " ++ number_to_string major ++ "."
            ++ number_to_string minor ++ ". Supported: 1.0")%string
  end.

(** ** Parser state *)

(** A [readToBuffer] call that the caller did not [await], suspended at the
    [await] of its loop: [wanted] is its [length], [passes] the value of its
    loop counter [i], and [requested] what the source answered to the
    [next()] it is waiting for ([None] for an exhausted source).  Until the
    call is resumed, this pass has done nothing to the parser. *)
Record Detached : Type := mkDetached {
  wanted : Z;
  passes : Z;
  requested : option Uint8Array
}.

(** The byte source is the list of the chunks it has not delivered yet:
    [next()] hands out the first of them, and an exhausted source answers
    with [value] undefined. *)
Record WPILogParser : Type := mkParser {
  stream : list Uint8Array;
  buffer : Uint8Array;
  reader : option DataView;
  cursor : Z;
  header : option Header;
  detached : list Detached
}.

(** [new WPILogParser(stream)] *)
Definition new_parser (s : list Uint8Array) : WPILogParser :=
  {| stream := s; buffer := []; reader := None; cursor := 0;
     header := None; detached := [] |}.

Definition set_cursor (c : Z) (p : WPILogParser) : WPILogParser :=
  {| stream := stream p; buffer := buffer p; reader := reader p; cursor := c;
     header := header p; detached := detached p |}.

(** Every assignment to [this.buffer] is followed by
    [this.reader = new DataView(...)] over the new buffer. *)
Definition set_buffer (b : Uint8Array) (p : WPILogParser) : WPILogParser :=
  {| stream := stream p; buffer := b; reader := Some b; cursor := cursor p;
     header := header p; detached := detached p |}.

Definition set_stream (s : list Uint8Array) (p : WPILogParser) : WPILogParser :=
  {| stream := s; buffer := buffer p; reader := reader p; cursor := cursor p;
     header := header p; detached := detached p |}.

Definition set_header (h : Header) (p : WPILogParser) : WPILogParser :=
  {| stream := stream p; buffer := buffer p; reader := reader p; cursor := cursor p;
     header := Some h; detached := detached p |}.

Definition add_detached (d : Detached) (p : WPILogParser) : WPILogParser :=
  {| stream := stream p; buffer := buffer p; reader := reader p; cursor := cursor p;
     header := header p; detached := detached p ++ [d] |}.

Definition set_detached (ds : list Detached) (p : WPILogParser) : WPILogParser :=
  {| stream := stream p; buffer := buffer p; reader := reader p; cursor := cursor p;
     header := header p; detached := ds |}.

(** Bytes between the cursor and the end of the buffer. *)
Definition unread (p : WPILogParser) : Z := byteLength (buffer p) - cursor p.

(** ** The monad of methods: state passing, with exceptions *)

(** An exception ends the method and every caller up to [parseAll], none of
    which catches: the parser in which it was thrown is not kept. *)

Inductive result (A : Type) : Type :=
| Ok (a : A) (p : WPILogParser)
| Err (e : error).
Arguments Ok {A} a p.
Arguments Err {A} e.

Definition M (A : Type) : Type := WPILogParser -> result A.

Definition ret {A} (a : A) : M A := fun p => Ok a p.
Definition throw {A} (e : error) : M A := fun _ => Err e.
Definition bind {A B} (m : M A) (k : A -> M B) : M B :=
  fun p => match m p with
           | Ok a p' => k a p'
           | Err e => Err e
           end.
Definition get : M WPILogParser := fun p => Ok p p.
Definition modify (f : WPILogParser -> WPILogParser) : M unit := fun p => Ok tt (f p).

Declare Scope method_scope.
Delimit Scope method_scope with method.
Notation "x <- m ;; k" := (bind m (fun x => k))
  (at level 61, m at next level, right associativity) : method_scope.
Notation "m ;;; k" := (bind m (fun _ => k))
  (at level 61, right associativity) : method_scope.
Local Open Scope method_scope.

(** ** Methods of [WPILogParser] *)

(** [fromLocalFile] only builds the source, and [readBigInt64], [readFloat32]
    and [readFloat64] are called by no method of the class; they are left
    out. *)

(** [concatUint8Arrays(a, b)] *)
Definition concatUint8Arrays (a b : Uint8Array) : Uint8Array := a ++ b.

(** One pass through the body of the loop of [readToBuffer]: a fresh
    iterator is asked for the next chunk and the chunk is appended to the
    buffer.  When the source is exhausted the chunk is [undefined]; then
    either [concatUint8Arrays] reads [b.length], or the buffer itself becomes
    [undefined] and [this.buffer.buffer] is read: a [TypeError] both ways. *)
Definition readToBuffer_body : M unit :=
  fun p =>
    match stream p with
    | [] => Err TypeError
    | chunk :: rest =>
        let buffer' :=
          if 0 <? byteLength (buffer p)
          then concatUint8Arrays (buffer p) chunk
          else chunk in
        Ok tt (set_buffer buffer' (set_stream rest p))
    end.

(** [for (let i = 0; i < length; i++) { ... }] *)
Fixpoint readToBuffer_loop (iterations : nat) : M unit :=
  match iterations with
  | O => ret tt
  | S k => readToBuffer_body ;;; readToBuffer_loop k
  end.

(** [await this.readToBuffer(length, description)].  The description is not
    used by the method. *)
Definition readToBuffer (length : Z) : M unit :=
  readToBuffer_loop (Z.to_nat length).

(** [this.readToBuffer(length, description)] without [await].  The call runs
    up to its first [await]: when the loop is entered it asks the source for
    a chunk and suspends; the caller goes on with the buffer as it is. *)
Definition readToBuffer_detached (length : Z) : M unit :=
  fun p =>
    if 0 <? length
    then Ok tt (add_detached (mkDetached length 0 (hd_error (stream p)))
                             (set_stream (tl (stream p)) p))
    else Ok tt p.

(** A suspended call is resumed: the rest of the pass appends the chunk that
    had been requested, [i++] is done, and either the loop goes into its
    next pass, which asks for a chunk and suspends again, or the call is
    over ([None]).  A call that finds its chunk [undefined] is rejected with
    the [TypeError]. *)
Definition resume_pass (d : Detached) : M (option Detached) :=
  fun p =>
    match requested d with
    | None => Err TypeError
    | Some chunk =>
        let buffer' :=
          if 0 <? byteLength (buffer p)
          then concatUint8Arrays (buffer p) chunk
          else chunk in
        let p1 := set_buffer buffer' p in
        let i := passes d + 1 in
        if i <? wanted d
        then Ok (Some (mkDetached (wanted d) i (hd_error (stream p1))))
                (set_stream (tl (stream p1)) p1)
        else Ok None p1
    end.

(** One step of the suspended calls: any one of them is resumed for one
    pass, in whatever order the promises of the source are settled. *)
Inductive detached_step : WPILogParser -> WPILogParser -> Prop :=
| detached_pass (p p1 : WPILogParser) (before after : list Detached)
      (d : Detached) (next : option Detached) :
    detached p = before ++ d :: after ->
    resume_pass d p = Ok next p1 ->
    detached_step p
      (set_detached (before ++ match next with
                               | Some d' => d' :: after
                               | None => after
                               end) p1).

(** [sliceBuffer(length)] *)
Definition sliceBuffer (length : Z) : M unit :=
  fun p =>
    if length <=? 0 then Ok tt p
    else
      let buffer' :=
        if byteLength (buffer p) <=? length then [] else slice (buffer p) length in
      Ok tt (set_cursor 0 (set_buffer buffer' p)).

(** [readBytes(length)] *)
Definition readBytes (length : Z) : M Uint8Array :=
  fun p =>
    let start := cursor p in
    let p' := set_cursor (cursor p + length) p in
    Ok (subarray (buffer p') start (cursor p')) p'.

(** A read through [this.reader!]: [TypeError] when the reader is still
    [null], [RangeError] when the view refuses the offset; otherwise the
    cursor moves by [width]. *)
Definition read_view (getter : DataView -> Z -> option Z) (width : Z) : M Z :=
  fun p =>
    match reader p with
    | None => Err TypeError
    | Some dv =>
        match getter dv (cursor p) with
        | None => Err RangeError
        | Some val => Ok val (set_cursor (cursor p + width) p)
        end
    end.

Definition readU8 : M Z := read_view getUint8 1.
Definition readU16 : M Z := read_view getUint16 2.
Definition readU32 : M Z := read_view getUint32 4.

(** [readVariableLength(numBytes)] *)
Definition readVariableLength (numBytes : Z) : M Z :=
  if numBytes =? 1 then readU8
  else if numBytes =? 2 then readU16
  else if numBytes =? 3 then
    b1 <- readU8 ;;
    b2 <- readU8 ;;
    b3 <- readU8 ;;
    ret (JS.or (JS.or b1 (JS.shl b2 8)) (JS.shl b3 16))
  else if numBytes =? 4 then readU32
  else throw (InvalidVariableLength numBytes).

(** The loop of [readVariableLengthBigInt]; [value] and [shift] are
    [bigint]s, on which [|], [<<] and [+] are exact. *)
Fixpoint readVariableLengthBigInt_loop (iterations : nat) (value shift : Z) : M Z :=
  match iterations with
  | O => ret value
  | S k =>
      byte <- readU8 ;;
      readVariableLengthBigInt_loop k (Z.lor value (Z.shiftl byte shift)) (shift + 8)
  end.

(** [readVariableLengthBigInt(numBytes)] *)
Definition readVariableLengthBigInt (numBytes : Z) : M Z :=
  readVariableLengthBigInt_loop (Z.to_nat numBytes) 0 0.

(** [parseVersion(bytes)] *)
Definition parseVersion (bytes : Z) : M (Z * Z) :=
  let major := JS.shr bytes 8 in
  let minor := JS.and bytes 255 in
  if (255 <? major) || (255 <? minor)
  then throw (InvalidVersion bytes)
  else ret (major, minor).

Section Header.

(** The module-level [td]: a [TextDecoder] for UTF-8 where the platform
    has one, [null] otherwise. *)
Variable td : option (Uint8Array -> string).

(** [parseHeader()] *)
Definition parseHeader : M Header :=
  let HEADER_MIN_SIZE := 6 + 2 + 4 in
  readToBuffer HEADER_MIN_SIZE ;;;
  magicBytes <- readBytes 6 ;;
  let magic := fromCharCode magicBytes in
  if negb (String.eqb magic "WPILOG") then throw (InvalidMagic magic)
  else
    version <- readU16 ;;
    if negb (version =? 256) then
      v <- parseVersion version ;;
      throw (UnsupportedVersion (fst v) (snd v))
    else
      extraLength <- readU32 ;;
      if 0 <? extraLength then
        readToBuffer extraLength ;;;
        extraBytes <- readBytes extraLength ;;
        let extra :=
          match td with
          | Some decode => decode extraBytes
          | None => fromCharCode extraBytes
          end in
        ret (mkHeader version extra)
      else
        p <- get ;;
        sliceBuffer (cursor p) ;;;
        ret (mkHeader version EmptyString).

(** [parseAll()]: reads the header and ends without a [return]. *)
Definition parseAll : M unit :=
  h <- parseHeader ;;
  modify (set_header h).

End Header.

(** [parseControlRecord(payload, entryId, timestamp)]: the body is empty,
    the promise resolves with [undefined]. *)
Definition parseControlRecord (payload : Uint8Array) (entryId timestamp : Z)
  : M (option ControlRecord) :=
  ret None.

(** The three width selectors of the bit field. *)
Definition entryIdLength (bitField0 : option byte) : Z :=
  JS.and (operand bitField0) 3.
Definition payloadSizeLength (bitField0 : option byte) : Z :=
  JS.and (JS.shr (operand bitField0) 2) 3.
Definition timestampLength (bitField0 : option byte) : Z :=
  JS.and (JS.shr (operand bitField0) 4) 7.

(** The locals of [parseRecord] once the payload has been read. *)
Record Frame : Type := mkFrame {
  bitField : Uint8Array;
  entryId : Z;
  payloadSize : Z;
  timestamp : Z;
  payloadBytes : Uint8Array
}.

(** The three header fields, in the order [parseRecord] reads them. *)
Definition readHeaderFields (bitField0 : option byte) : M (Z * Z * Z) :=
  entryId <- readVariableLength (entryIdLength bitField0) ;;
  payloadSize <- readVariableLength (payloadSizeLength bitField0) ;;
  timestamp <- readVariableLengthBigInt (timestampLength bitField0) ;;
  ret (entryId, payloadSize, timestamp).

(** [parseRecord()] up to and including [readBytes(payloadSize)].  None of
    its three [readToBuffer] calls is awaited. *)
Definition parseRecord_frame : M Frame :=
  readToBuffer_detached 1 ;;;
  bitField <- readBytes 1 ;;
  let bitField0 := index bitField 0 in
  readToBuffer_detached
    (1 + entryIdLength bitField0 + payloadSizeLength bitField0
       + timestampLength bitField0) ;;;
  modify (fun p => set_cursor (cursor p + 1) p) ;;;
  fields <- readHeaderFields bitField0 ;;
  let '(entryId, payloadSize, timestamp) := fields in
  readToBuffer_detached payloadSize ;;;
  payloadBytes <- readBytes payloadSize ;;
  ret (mkFrame bitField entryId payloadSize timestamp payloadBytes).

(** [parseRecord()]: the record is assigned to a local and the method ends
    without a [return]. *)
Definition parseRecord : M unit :=
  frame <- parseRecord_frame ;;
  (if entryId frame =? 0
   then parseControlRecord (payloadBytes frame) (entryId frame) (timestamp frame)
   else ret None) ;;;
  ret tt.

(** ** Reference notions used in the statements *)

(** The unsigned integer that a sequence of bytes encodes, least significant
    byte first. *)
Fixpoint le_uint (bs : list byte) : Z :=
  match bs with
  | [] => 0
  | b :: rest => byte_val b + 256 * le_uint rest
  end.

(** The ASCII bytes of the magic. *)
Definition WPILOG_magic : Uint8Array := list_byte_of_string "WPILOG".

(** A parser whose buffer (and the reader over it) holds [bytes], with the
    cursor at [c] and nothing left in the source. *)
Definition buffered (bytes : Uint8Array) (c : Z) : WPILogParser :=
  {| stream := []; buffer := bytes; reader := Some bytes; cursor := c;
     header := None; detached := [] |}.

(** One chunk per byte: the most fragmented delivery of [bytes]. *)
Definition bytewise (bytes : Uint8Array) : list Uint8Array :=
  map (fun b => [b]) bytes.

(** The header size that the width note of the format description gives a
    record: every stored selector counted as one byte more. *)
Definition minus_one_header_size (bitField0 : option byte) : Z :=
  (entryIdLength bitField0 + 1) + (payloadSizeLength bitField0 + 1)
  + (timestampLength bitField0 + 1).

(** The element [bitField[0]] that [parseRecord] finds when it starts in
    state [p]. *)
Definition first_bitField (p : WPILogParser) : option byte :=
  index (subarray (buffer p) (cursor p) (cursor p + 1)) 0.

(** The parser after [n] chunks have gone from the source to the end of the
    buffer. *)
Definition pulled (n : nat) (p : WPILogParser) : WPILogParser :=
  set_buffer (buffer p ++ List.concat (firstn n (stream p)))
             (set_stream (skipn n (stream p)) p).

(** The twelve header bytes of a version 1.0 file without extra header. *)
Definition plain_header : Uint8Array :=
  WPILOG_magic ++ ["000"; "001"; "000"; "000"; "000"; "000"]%byte.

(** A source that delivers [plain_header] in one chunk and then, byte by
    byte, a record (bit field 0x15, one more byte, entry id 1, payload size
    2, timestamp 7, payload 0xAA 0xBB), the first four bytes of the next
    record, and eight bytes more. *)
Definition sample_log : list Uint8Array :=
  plain_header
    :: bytewise ["021"; "000"; "001"; "002"; "007"; "170"; "187";
                 "021"; "000"; "001"; "000";
                 "007"; "001"; "002"; "003"; "004"; "005"; "006"; "007"]%byte.

(** A parser that has in its buffer a control record (bit field 0x15, one
    more byte, entry id 0, payload size 1, timestamp 7) whose payload is the
    tag 3, and a source with eight more chunks. *)
Definition tag3_record : WPILogParser :=
  {| stream := bytewise ["000"; "001"; "002"; "003"; "004"; "005"; "006"; "007"]%byte;
     buffer := ["021"; "000"; "000"; "001"; "007"; "003"]%byte;
     reader := Some ["021"; "000"; "000"; "001"; "007"; "003"]%byte;
     cursor := 0; header := None; detached := [] |}.

(** The bytes that the magic test of [parseHeader] looks at, when the fill
    has completed in state [p1]. *)
Definition magic_found (p1 : WPILogParser) : Uint8Array :=
  subarray (buffer p1) (cursor p1) (cursor p1 + 6).

(** Twelve header bytes whose magic ends in X. *)
Definition bad_magic_header : Uint8Array :=
  list_byte_of_string "WPILOX" ++ ["000"; "001"; "000"; "000"; "000"; "000"]%byte.

(** Twelve header bytes with the given two version bytes, in stream order. *)
Definition versioned_header (v0 v1 : byte) : Uint8Array :=
  WPILOG_magic ++ [v0; v1] ++ ["000"; "000"; "000"; "000"]%byte.

(** ** Further methods and notions *)

(** [dv.getBigInt64(offset, true)]: the eight bytes as a little-endian
    two's complement number. *)
Definition getBigInt64 (dv : DataView) (offset : Z) : option Z :=
  match view_bytes dv offset 8 with
  | Some bs =>
      let unsigned := le_uint bs in
      Some (if unsigned <? 2 ^ 63 then unsigned else unsigned - 2 ^ 64)
  | None => None
  end.

(** [readBigInt64()] *)
Definition readBigInt64 : M Z := read_view getBigInt64 8.

(** A little-endian read of [w] bytes through the reader, with its two ways
    to fail: no reader yet, or bytes outside the view. *)
Definition checked_read (w : Z) : M Z :=
  fun p =>
    match reader p with
    | None => Err TypeError
    | Some dv =>
        if (0 <=? cursor p) && (cursor p + w <=? byteLength dv)
        then Ok (le_uint (firstn (Z.to_nat w) (skipn (Z.to_nat (cursor p)) dv)))
                (set_cursor (cursor p + w) p)
        else Err RangeError
    end.


(** The reader, once there is one, is a view of the current buffer. *)
Definition view_consistent (p : WPILogParser) : Prop :=
  reader p = None \/ reader p = Some (buffer p).

(** * Properties *)

(** ** Arithmetic of the JavaScript operators on small operands *)

Lemma to_int32_small (z : Z) : - 2 ^ 31 <= z < 2 ^ 31 -> to_int32 z = z.
Proof.
  intros H. unfold to_int32.
  rewrite Z.mod_small by lia. lia.
Qed.

Lemma byte_val_range (b : byte) : 0 <= byte_val b < 256.
Proof.
  unfold byte_val. pose proof (Byte.to_N_bounded b). lia.
Qed.

Lemma le_uint_range (bs : list byte) :
  0 <= le_uint bs < 256 ^ Z.of_nat (List.length bs).
Proof.
  induction bs as [|b rest IH].
  - simpl. lia.
  - cbn [le_uint List.length]. rewrite Nat2Z.inj_succ, Z.pow_succ_r by lia.
    pose proof (byte_val_range b). lia.
Qed.

(** An operand below [2^k] and a multiple of [2^k] share no bit, so [|]
    adds them. *)
Lemma lor_disjoint_add (a c k : Z) :
  0 <= k -> 0 <= a < 2 ^ k -> Z.lor a (c * 2 ^ k) = a + c * 2 ^ k.
Proof.
  intros Hk Ha.
  assert (Hland : Z.land a (c * 2 ^ k) = 0).
  { apply Z.bits_inj'. intros n Hn.
    rewrite Z.land_spec, Z.bits_0.
    destruct (Z.lt_ge_cases n k) as [Hlt|Hge].
    - rewrite Z.mul_pow2_bits_low by lia. apply andb_false_r.
    - replace a with (a mod 2 ^ k) by (apply Z.mod_small; lia).
      rewrite Z.mod_pow2_bits_high by lia. reflexivity. }
  rewrite <- Z.lxor_lor by exact Hland.
  symmetry. apply Z.add_nocarry_lxor. exact Hland.
Qed.

Lemma lor_shiftl_add (a c k : Z) :
  0 <= k -> 0 <= a < 2 ^ k -> Z.lor a (Z.shiftl c k) = a + c * 2 ^ k.
Proof.
  intros Hk Ha. rewrite Z.shiftl_mul_pow2 by lia.
  apply lor_disjoint_add; assumption.
Qed.

Lemma shl_small (a k : Z) :
  0 <= k < 32 -> 0 <= a -> a * 2 ^ k < 2 ^ 31 -> JS.shl a k = a * 2 ^ k.
Proof.
  intros Hk Ha Hb. unfold JS.shl.
  assert (a < 2 ^ 31).
  { assert (1 <= 2 ^ k) by (apply (Z.pow_le_mono_r 2 0 k); lia). nia. }
  rewrite Z.mod_small by lia.
  rewrite (to_int32_small a) by lia.
  rewrite Z.shiftl_mul_pow2 by lia.
  apply to_int32_small. nia.
Qed.

Lemma or_small_add (a c k : Z) :
  0 <= k -> 0 <= a < 2 ^ k -> 0 <= c -> a + c * 2 ^ k < 2 ^ 31 ->
  JS.or a (c * 2 ^ k) = a + c * 2 ^ k.
Proof.
  intros Hk Ha Hc Hb. unfold JS.or.
  assert (0 <= c * 2 ^ k) by (apply Z.mul_nonneg_nonneg; lia).
  rewrite !to_int32_small by lia.
  apply lor_disjoint_add; assumption.
Qed.

(** ** Reads through the [DataView] *)

Lemma byteLength_app (a b : Uint8Array) :
  byteLength (a ++ b) = byteLength a + byteLength b.
Proof.
  unfold byteLength. rewrite length_app. lia.
Qed.

Lemma byteLength_nonneg (a : Uint8Array) : 0 <= byteLength a.
Proof.
  unfold byteLength. lia.
Qed.

(** The bytes found in a view right after a prefix [pre]. *)
Lemma view_bytes_at (pre bs post : list byte) :
  view_bytes (pre ++ bs ++ post) (byteLength pre) (List.length bs) = Some bs.
Proof.
  unfold view_bytes.
  rewrite !byteLength_app.
  pose proof (byteLength_nonneg pre). pose proof (byteLength_nonneg post).
  replace (0 <=? byteLength pre) with true by (symmetry; apply Z.leb_le; lia).
  replace (byteLength pre + Z.of_nat (List.length bs)
           <=? byteLength pre + (byteLength bs + byteLength post))
    with true by (symmetry; apply Z.leb_le; unfold byteLength; lia).
  cbn [andb]. f_equal.
  unfold byteLength. rewrite Nat2Z.id.
  rewrite skipn_app, skipn_all, Nat.sub_diag. cbn [skipn app].
  rewrite firstn_app, firstn_all, Nat.sub_diag. cbn [firstn].
  apply app_nil_r.
Qed.

Section Reads.

Variables (p : WPILogParser) (pre post : list byte).

Lemma readU8_at (b0 : byte) :
  reader p = Some (pre ++ [b0] ++ post) -> cursor p = byteLength pre ->
  readU8 p = Ok (byte_val b0) (set_cursor (cursor p + 1) p).
Proof.
  intros Hr Hc. unfold readU8, read_view, getUint8.
  rewrite Hr, Hc.
  pose proof (view_bytes_at pre [b0] post) as Hv. cbn [List.length] in Hv.
  rewrite Hv. reflexivity.
Qed.

Lemma readU16_at (b0 b1 : byte) :
  reader p = Some (pre ++ [b0; b1] ++ post) -> cursor p = byteLength pre ->
  readU16 p = Ok (le_uint [b0; b1]) (set_cursor (cursor p + 2) p).
Proof.
  intros Hr Hc. unfold readU16, read_view, getUint16.
  rewrite Hr, Hc.
  pose proof (view_bytes_at pre [b0; b1] post) as Hv. cbn [List.length] in Hv.
  rewrite Hv.
  pose proof (byte_val_range b0).
  rewrite (lor_shiftl_add (byte_val b0) (byte_val b1) 8) by lia.
  cbn [le_uint]. f_equal. lia.
Qed.

Lemma readU32_at (b0 b1 b2 b3 : byte) :
  reader p = Some (pre ++ [b0; b1; b2; b3] ++ post) -> cursor p = byteLength pre ->
  readU32 p = Ok (le_uint [b0; b1; b2; b3]) (set_cursor (cursor p + 4) p).
Proof.
  intros Hr Hc. unfold readU32, read_view, getUint32.
  rewrite Hr, Hc.
  pose proof (view_bytes_at pre [b0; b1; b2; b3] post) as Hv. cbn [List.length] in Hv.
  rewrite Hv.
  pose proof (byte_val_range b0). pose proof (byte_val_range b1).
  pose proof (byte_val_range b2). pose proof (byte_val_range b3).
  rewrite (lor_shiftl_add (byte_val b0) (byte_val b1) 8) by lia.
  rewrite (Z.shiftl_mul_pow2 (byte_val b2) 16) by lia.
  rewrite (Z.shiftl_mul_pow2 (byte_val b3) 24) by lia.
  replace (Z.lor (byte_val b2 * 2 ^ 16) (byte_val b3 * 2 ^ 24))
    with ((byte_val b2 + byte_val b3 * 2 ^ 8) * 2 ^ 16).
  2:{ replace (byte_val b3 * 2 ^ 24) with ((byte_val b3 * 2 ^ 8) * 2 ^ 16) by lia.
      rewrite <- !Z.shiftl_mul_pow2 by lia.
      rewrite <- Z.shiftl_lor. f_equal.
      rewrite Z.shiftl_mul_pow2 by lia.
      symmetry. apply lor_disjoint_add; lia. }
  rewrite lor_disjoint_add by lia.
  cbn [le_uint]. f_equal. lia.
Qed.

End Reads.

(** A read leaves the reader alone and moves the cursor past what it read,
    so the next read finds the bytes that follow. *)
Lemma reader_set_cursor (c : Z) (p : WPILogParser) :
  reader (set_cursor c p) = reader p.
Proof. reflexivity. Qed.

Lemma cursor_set_cursor (c : Z) (p : WPILogParser) :
  cursor (set_cursor c p) = c.
Proof. reflexivity. Qed.

Lemma set_cursor_twice (c d : Z) (p : WPILogParser) :
  set_cursor d (set_cursor c p) = set_cursor d p.
Proof. reflexivity. Qed.

Lemma set_cursor_same (p : WPILogParser) : set_cursor (cursor p) p = p.
Proof. destruct p; reflexivity. Qed.

(** The three-byte case of [readVariableLength]. *)
Lemma readVariableLength_3_at (p : WPILogParser) (pre post : list byte) (b0 b1 b2 : byte) :
  reader p = Some (pre ++ [b0; b1; b2] ++ post) -> cursor p = byteLength pre ->
  readVariableLength 3 p = Ok (le_uint [b0; b1; b2]) (set_cursor (cursor p + 3) p).
Proof.
  intros Hr Hc. unfold readVariableLength. cbn [Z.eqb Pos.eqb].
  unfold bind.
  rewrite (readU8_at p pre ([b1; b2] ++ post) b0 Hr Hc).
  rewrite (readU8_at (set_cursor (cursor p + 1) p) (pre ++ [b0]) ([b2] ++ post) b1).
  2:{ rewrite reader_set_cursor, Hr. f_equal. rewrite <- app_assoc. reflexivity. }
  2:{ rewrite cursor_set_cursor, Hc, byteLength_app. reflexivity. }
  rewrite cursor_set_cursor, set_cursor_twice.
  rewrite (readU8_at (set_cursor (cursor p + 1 + 1) p) (pre ++ [b0; b1]) post b2).
  2:{ rewrite reader_set_cursor, Hr. f_equal. rewrite <- app_assoc. reflexivity. }
  2:{ rewrite cursor_set_cursor, Hc, byteLength_app. unfold byteLength.
      cbn [List.length]. lia. }
  rewrite cursor_set_cursor, set_cursor_twice.
  unfold ret.
  pose proof (byte_val_range b0). pose proof (byte_val_range b1).
  pose proof (byte_val_range b2).
  rewrite (shl_small (byte_val b1) 8) by lia.
  rewrite (shl_small (byte_val b2) 16) by lia.
  rewrite (or_small_add (byte_val b0) (byte_val b1) 8) by lia.
  rewrite (or_small_add (byte_val b0 + byte_val b1 * 2 ^ 8) (byte_val b2) 16) by lia.
  cbn [le_uint]. f_equal; [lia | f_equal; lia].
Qed.

(** The loop of [readVariableLengthBigInt] accumulates the bytes it meets
    above the [shift] bits it already holds. *)
Lemma readVariableLengthBigInt_loop_at (bs : list byte) :
  forall (p : WPILogParser) (pre post : list byte) (value shift : Z),
    reader p = Some (pre ++ bs ++ post) -> cursor p = byteLength pre ->
    0 <= shift -> 0 <= value < 2 ^ shift ->
    readVariableLengthBigInt_loop (List.length bs) value shift p
    = Ok (value + 2 ^ shift * le_uint bs)
         (set_cursor (cursor p + byteLength bs) p).
Proof.
  induction bs as [|b rest IH]; intros p pre post value shift Hr Hc Hs Hv.
  - cbn. unfold ret. rewrite Z.add_0_r, Z.mul_0_r, Z.add_0_r, set_cursor_same.
    reflexivity.
  - cbn [List.length readVariableLengthBigInt_loop]. unfold bind.
    rewrite (readU8_at p pre (rest ++ post) b Hr Hc).
    pose proof (byte_val_range b) as Hb.
    rewrite (IH _ (pre ++ [b]) post).
    + rewrite cursor_set_cursor, set_cursor_twice.
      rewrite lor_shiftl_add by lia.
      cbn [le_uint]. rewrite Z.pow_add_r by lia.
      f_equal; [ lia | ].
      f_equal. unfold byteLength. cbn [List.length]. lia.
    + rewrite reader_set_cursor, Hr. f_equal. rewrite <- app_assoc. reflexivity.
    + rewrite cursor_set_cursor, Hc, byteLength_app. reflexivity.
    + lia.
    + rewrite lor_shiftl_add by lia.
      rewrite Z.pow_add_r by lia. nia.
Qed.

Lemma readVariableLengthBigInt_at (p : WPILogParser) (pre bs post : list byte) :
  reader p = Some (pre ++ bs ++ post) -> cursor p = byteLength pre ->
  readVariableLengthBigInt (byteLength bs) p
  = Ok (le_uint bs) (set_cursor (cursor p + byteLength bs) p).
Proof.
  intros Hr Hc. unfold readVariableLengthBigInt, byteLength at 1.
  rewrite Nat2Z.id.
  rewrite (readVariableLengthBigInt_loop_at bs p pre post 0 0 Hr Hc) by lia.
  f_equal. lia.
Qed.

(** ** Variable-width integers *)

(** [readVariableLength] on the bytes found at the cursor. *)
Lemma readVariableLength_at
    (w : Z) (bs pre post : list byte) (p : WPILogParser) :
  w = 1 \/ w = 2 \/ w = 3 \/ w = 4 ->
  byteLength bs = w ->
  reader p = Some (pre ++ bs ++ post) ->
  cursor p = byteLength pre ->
  readVariableLength w p = Ok (le_uint bs) (set_cursor (cursor p + w) p).
Proof.
  intros Hw Hlen Hr Hc.
  unfold byteLength in Hlen.
  destruct Hw as [-> | [-> | [-> | ->]]].
  - destruct bs as [|b0 [|? ?]]; cbn [List.length] in Hlen; try lia.
    unfold readVariableLength. cbn [Z.eqb Pos.eqb].
    rewrite (readU8_at p pre post b0 Hr Hc).
    cbn [le_uint]. f_equal. lia.
  - destruct bs as [|b0 [|b1 [|? ?]]]; cbn [List.length] in Hlen; try lia.
    unfold readVariableLength. cbn [Z.eqb Pos.eqb].
    apply (readU16_at p pre post b0 b1 Hr Hc).
  - destruct bs as [|b0 [|b1 [|b2 [|? ?]]]]; cbn [List.length] in Hlen; try lia.
    apply (readVariableLength_3_at p pre post b0 b1 b2 Hr Hc).
  - destruct bs as [|b0 [|b1 [|b2 [|b3 [|? ?]]]]]; cbn [List.length] in Hlen; try lia.
    unfold readVariableLength. cbn [Z.eqb Pos.eqb].
    apply (readU32_at p pre post b0 b1 b2 b3 Hr Hc).
Qed.

(** C4. For a width of 1, 2, 3 or 4 and any bytes of that length found at
    the cursor, [readVariableLength] returns the unsigned integer the bytes
    encode least significant byte first, and moves the cursor past them; the
    three-byte case is [b0 | b1<<8 | b2<<16] with no sign extension.  The
    bigint decoder agrees on the same bytes. *)
Theorem readVariableLength_little_endian
    (w : Z) (bs pre post : list byte) (p : WPILogParser) :
  w = 1 \/ w = 2 \/ w = 3 \/ w = 4 ->
  byteLength bs = w ->
  reader p = Some (pre ++ bs ++ post) ->
  cursor p = byteLength pre ->
  readVariableLength w p = Ok (le_uint bs) (set_cursor (cursor p + w) p)
  /\ readVariableLengthBigInt w p = Ok (le_uint bs) (set_cursor (cursor p + w) p).
Proof.
  intros Hw Hlen Hr Hc. split.
  - apply (readVariableLength_at w bs pre post p Hw Hlen Hr Hc).
  - subst w. apply (readVariableLengthBigInt_at p pre bs post Hr Hc).
Qed.

(** The bytes 01 02 03 decode to 0x030201, and FF FF FF to 0xFFFFFF, a
    positive number. *)
Lemma readVariableLength_little_endian_witness :
  byteLength ["001"; "002"; "003"]%byte = 3
  /\ readVariableLength 3 (buffered ["001"; "002"; "003"]%byte 0)
     = Ok 197121 (buffered ["001"; "002"; "003"]%byte 3)
  /\ readVariableLength 3 (buffered ["255"; "255"; "255"]%byte 0)
     = Ok 16777215 (buffered ["255"; "255"; "255"]%byte 3).
Proof.
  split; [reflexivity|]. split.
  - apply (readVariableLength_little_endian 3 ["001"; "002"; "003"]%byte [] []
             (buffered ["001"; "002"; "003"]%byte 0)).
    + right; right; left; reflexivity.
    + reflexivity.
    + reflexivity.
    + reflexivity.
  - apply (readVariableLength_little_endian 3 ["255"; "255"; "255"]%byte [] []
             (buffered ["255"; "255"; "255"]%byte 0)).
    + right; right; left; reflexivity.
    + reflexivity.
    + reflexivity.
    + reflexivity.
Defined.

(** Every width other than 1, 2, 3 and 4 falls to the [default] case. *)
Lemma readVariableLength_default (numBytes : Z) (p : WPILogParser) :
  numBytes <> 1 -> numBytes <> 2 -> numBytes <> 3 -> numBytes <> 4 ->
  readVariableLength numBytes p = Err (InvalidVariableLength numBytes).
Proof.
  intros H1 H2 H3 H4. unfold readVariableLength.
  apply Z.eqb_neq in H1, H2, H3, H4.
  rewrite H1, H2, H3, H4. reflexivity.
Qed.

(** A successful [readVariableLength] had one of the four widths and moved
    the cursor by exactly that width, leaving the rest of the parser alone. *)
Lemma read_view_ok (getter : DataView -> Z -> option Z) (width val : Z)
    (p p' : WPILogParser) :
  read_view getter width p = Ok val p' -> p' = set_cursor (cursor p + width) p.
Proof.
  unfold read_view. destruct (reader p) as [dv|]; [|discriminate].
  destruct (getter dv (cursor p)); [|discriminate].
  intros H. injection H as _ <-. reflexivity.
Qed.

Lemma readVariableLength_ok (numBytes val : Z) (p p' : WPILogParser) :
  readVariableLength numBytes p = Ok val p' ->
  1 <= numBytes <= 4 /\ p' = set_cursor (cursor p + numBytes) p.
Proof.
  unfold readVariableLength.
  destruct (Z.eqb_spec numBytes 1) as [->|N1].
  { intros H. split; [lia|]. exact (read_view_ok _ _ _ _ _ H). }
  destruct (Z.eqb_spec numBytes 2) as [->|N2].
  { intros H. split; [lia|]. exact (read_view_ok _ _ _ _ _ H). }
  destruct (Z.eqb_spec numBytes 3) as [->|N3].
  { unfold bind, ret.
    destruct (readU8 p) as [b1 p1|] eqn:E1; [|discriminate].
    destruct (readU8 p1) as [b2 p2|] eqn:E2; [|discriminate].
    destruct (readU8 p2) as [b3 p3|] eqn:E3; [|discriminate].
    intros H. injection H as _ <-. split; [lia|].
    apply read_view_ok in E1, E2, E3. subst p1 p2 p3.
    rewrite !cursor_set_cursor, !set_cursor_twice. f_equal. lia. }
  destruct (Z.eqb_spec numBytes 4) as [->|N4].
  { intros H. split; [lia|]. exact (read_view_ok _ _ _ _ _ H). }
  discriminate.
Qed.

Lemma lor_nonneg_intro (a b : Z) : 0 <= a -> 0 <= b -> 0 <= Z.lor a b.
Proof.
  intros Ha Hb. apply (proj2 (Z.lor_nonneg a b)). split; assumption.
Qed.

Lemma shiftl_nonneg_intro (a n : Z) : 0 <= a -> 0 <= Z.shiftl a n.
Proof.
  intros Ha. apply (proj2 (Z.shiftl_nonneg a n)). exact Ha.
Qed.

(** What [readVariableLength] returns is never negative. *)
Lemma readU8_range (val : Z) (p p' : WPILogParser) :
  readU8 p = Ok val p' -> 0 <= val < 256.
Proof.
  unfold readU8, read_view, getUint8.
  destruct (reader p) as [dv|]; [|discriminate].
  destruct (view_bytes dv (cursor p) 1) as [[|b0 [|? ?]]|]; try discriminate.
  intros H. injection H as <- _. apply byte_val_range.
Qed.

Lemma readVariableLength_nonneg (numBytes val : Z) (p p' : WPILogParser) :
  readVariableLength numBytes p = Ok val p' -> 0 <= val.
Proof.
  unfold readVariableLength.
  destruct (numBytes =? 1).
  { intros H. apply readU8_range in H. lia. }
  destruct (numBytes =? 2).
  { unfold readU16, read_view, getUint16.
    destruct (reader p) as [dv|]; [|discriminate].
    destruct (view_bytes dv (cursor p) 2) as [[|b0 [|b1 [|? ?]]]|]; try discriminate.
    intros H.
    replace val with (Z.lor (byte_val b0) (Z.shiftl (byte_val b1) 8)) by congruence.
    pose proof (byte_val_range b0). pose proof (byte_val_range b1).
    apply lor_nonneg_intro; [lia|]. apply shiftl_nonneg_intro. lia. }
  destruct (numBytes =? 3).
  { unfold bind, ret.
    destruct (readU8 p) as [b1 p1|] eqn:E1; [|discriminate].
    destruct (readU8 p1) as [b2 p2|] eqn:E2; [|discriminate].
    destruct (readU8 p2) as [b3 p3|] eqn:E3; [|discriminate].
    intros H. injection H as <- _.
    apply readU8_range in E1, E2, E3.
    rewrite (shl_small b2 8) by lia.
    rewrite (shl_small b3 16) by lia.
    rewrite (or_small_add b1 b2 8) by lia.
    rewrite (or_small_add (b1 + b2 * 2 ^ 8) b3 16) by lia.
    lia. }
  destruct (numBytes =? 4).
  { unfold readU32, read_view, getUint32.
    destruct (reader p) as [dv|]; [|discriminate].
    destruct (view_bytes dv (cursor p) 4) as [[|b0 [|b1 [|b2 [|b3 [|? ?]]]]]|];
      try discriminate.
    intros H.
    replace val
      with (Z.lor (Z.lor (byte_val b0) (Z.shiftl (byte_val b1) 8))
                  (Z.lor (Z.shiftl (byte_val b2) 16) (Z.shiftl (byte_val b3) 24)))
      by congruence.
    pose proof (byte_val_range b0). pose proof (byte_val_range b1).
    pose proof (byte_val_range b2). pose proof (byte_val_range b3).
    repeat apply lor_nonneg_intro; try apply shiftl_nonneg_intro; lia. }
  discriminate.
Qed.

Lemma readVariableLengthBigInt_loop_ok (n : nat) :
  forall (value shift val : Z) (p p' : WPILogParser),
    readVariableLengthBigInt_loop n value shift p = Ok val p' ->
    p' = set_cursor (cursor p + Z.of_nat n) p.
Proof.
  induction n as [|n IH]; intros value shift val p p'.
  - cbn. unfold ret. intros H. injection H as _ <-.
    rewrite Z.add_0_r, set_cursor_same. reflexivity.
  - cbn [readVariableLengthBigInt_loop]. unfold bind.
    destruct (readU8 p) as [b p1|] eqn:E1; [|discriminate].
    intros H. apply IH in H. apply read_view_ok in E1. subst p1 p'.
    rewrite cursor_set_cursor, set_cursor_twice. f_equal. lia.
Qed.

(** With no byte to read the bigint decoder returns 0 and touches nothing. *)
Lemma readVariableLengthBigInt_zero (p : WPILogParser) :
  readVariableLengthBigInt 0 p = Ok 0 p.
Proof. reflexivity. Qed.

(** ** The width selectors of the bit field *)

Lemma operand_range (o : option byte) : 0 <= operand o < 256.
Proof.
  destruct o as [b|]; cbn [operand]; [apply byte_val_range | lia].
Qed.

Lemma and_mask (a k : Z) :
  0 <= a < 2 ^ 31 -> 0 <= k < 31 -> JS.and a (Z.ones k) = a mod 2 ^ k.
Proof.
  intros Ha Hk. unfold JS.and.
  assert (0 <= Z.ones k < 2 ^ 31).
  { rewrite Z.ones_equiv.
    assert (0 < 2 ^ k <= 2 ^ 31) by (split; [lia | apply Z.pow_le_mono_r; lia]).
    lia. }
  rewrite !to_int32_small by lia.
  apply Z.land_ones. lia.
Qed.

Lemma shr_div (a k : Z) :
  0 <= a < 2 ^ 31 -> 0 <= k < 32 -> JS.shr a k = a / 2 ^ k.
Proof.
  intros Ha Hk. unfold JS.shr.
  rewrite to_int32_small by lia.
  rewrite Z.mod_small by lia.
  apply Z.shiftr_div_pow2. lia.
Qed.

(** The selectors are bits 0-1, bits 2-3 and bits 4-6 of the bit field. *)
Lemma width_selectors (bitField0 : option byte) :
  entryIdLength bitField0 = operand bitField0 mod 4
  /\ payloadSizeLength bitField0 = (operand bitField0 / 4) mod 4
  /\ timestampLength bitField0 = (operand bitField0 / 16) mod 8.
Proof.
  pose proof (operand_range bitField0) as Hv.
  unfold entryIdLength, payloadSizeLength, timestampLength.
  change 3 with (Z.ones 2). change 7 with (Z.ones 3).
  rewrite !shr_div by lia.
  assert (0 <= operand bitField0 / 2 ^ 2 < 2 ^ 31).
  { split; [apply Z.div_pos; lia | apply Z.div_lt_upper_bound; lia]. }
  assert (0 <= operand bitField0 / 2 ^ 4 < 2 ^ 31).
  { split; [apply Z.div_pos; lia | apply Z.div_lt_upper_bound; lia]. }
  rewrite !and_mask by lia.
  repeat split.
Qed.

Lemma width_selectors_range (bitField0 : option byte) :
  0 <= entryIdLength bitField0 <= 3
  /\ 0 <= payloadSizeLength bitField0 <= 3
  /\ 0 <= timestampLength bitField0 <= 7.
Proof.
  destruct (width_selectors bitField0) as (-> & -> & ->).
  pose proof (Z.mod_pos_bound (operand bitField0) 4).
  pose proof (Z.mod_pos_bound (operand bitField0 / 4) 4).
  pose proof (Z.mod_pos_bound (operand bitField0 / 16) 8).
  lia.
Qed.

(** ** The header fields of a record *)

Lemma readHeaderFields_zero_entryId (bitField0 : option byte) (q : WPILogParser) :
  entryIdLength bitField0 = 0 ->
  readHeaderFields bitField0 q = Err (InvalidVariableLength 0).
Proof.
  intros H. unfold readHeaderFields, bind. rewrite H. reflexivity.
Qed.

Lemma readHeaderFields_zero_payloadSize (bitField0 : option byte) (q : WPILogParser) :
  payloadSizeLength bitField0 = 0 ->
  exists e, readHeaderFields bitField0 q = Err e.
Proof.
  intros H. unfold readHeaderFields, bind. rewrite H.
  destruct (readVariableLength (entryIdLength bitField0) q) as [eid q1|e].
  - exists (InvalidVariableLength 0). reflexivity.
  - exists e. reflexivity.
Qed.

Lemma readHeaderFields_zero_timestamp
    (bitField0 : option byte) (q q1 q2 : WPILogParser) (eid sz : Z) :
  timestampLength bitField0 = 0 ->
  readVariableLength (entryIdLength bitField0) q = Ok eid q1 ->
  readVariableLength (payloadSizeLength bitField0) q1 = Ok sz q2 ->
  readHeaderFields bitField0 q = Ok (eid, sz, 0) q2.
Proof.
  intros Ht He Hs. unfold readHeaderFields, bind.
  rewrite He, Hs, Ht. reflexivity.
Qed.

(** [parseRecord] reads the bit field, and decodes the header fields that
    the bit field announces from a state [q] with the same buffer and
    reader. *)
Lemma parseRecord_frame_header (p : WPILogParser) :
  exists q,
    buffer q = buffer p /\ reader q = reader p /\ cursor q = cursor p + 2
    /\ parseRecord_frame p
       = bind (readHeaderFields (first_bitField p))
           (fun fields =>
              let '(eid, sz, ts) := fields in
              readToBuffer_detached sz ;;;
              payload <- readBytes sz ;;
              ret (mkFrame (subarray (buffer p) (cursor p) (cursor p + 1))
                     eid sz ts payload)) q.
Proof.
  unfold parseRecord_frame, first_bitField.
  unfold bind at 1. unfold readToBuffer_detached at 1. cbn [Z.ltb Z.compare].
  unfold bind at 1. unfold readBytes at 1.
  cbn [buffer cursor set_cursor add_detached set_stream].
  unfold bind at 1. unfold readToBuffer_detached at 1.
  match goal with
  | |- context [if ?c then _ else _] => destruct c
  end.
  all: unfold bind at 1; unfold modify at 1;
    cbn [buffer cursor reader set_cursor add_detached set_stream];
    eexists; (split; [|split; [|split; [|reflexivity]]]);
    cbn [buffer cursor reader set_cursor add_detached set_stream];
    try reflexivity; lia.
Qed.

Lemma parseRecord_frame_zero_entryId (p : WPILogParser) :
  entryIdLength (first_bitField p) = 0 ->
  parseRecord_frame p = Err (InvalidVariableLength 0).
Proof.
  intros H. destruct (parseRecord_frame_header p) as (q & _ & _ & _ & ->).
  unfold bind. rewrite (readHeaderFields_zero_entryId _ q H). reflexivity.
Qed.

Lemma parseRecord_frame_zero_payloadSize (p : WPILogParser) :
  payloadSizeLength (first_bitField p) = 0 ->
  exists e, parseRecord_frame p = Err e.
Proof.
  intros H. destruct (parseRecord_frame_header p) as (q & _ & _ & _ & ->).
  destruct (readHeaderFields_zero_payloadSize _ q H) as (e & He).
  exists e. unfold bind. rewrite He. reflexivity.
Qed.

Lemma parseRecord_of_frame_error (p : WPILogParser) (e : error) :
  parseRecord_frame p = Err e -> parseRecord p = Err e.
Proof.
  intros H. unfold parseRecord, bind. rewrite H. reflexivity.
Qed.

(** C7. A record whose entry-id selector or payload-size selector is 0 is
    rejected with an error, because [readVariableLength] throws for every
    width other than 1, 2, 3 and 4; a timestamp selector of 0 is accepted,
    because [readVariableLengthBigInt] returns 0 for width 0 without
    reading, so the header fields then decode with timestamp 0. *)
Theorem zero_width_rejected (p : WPILogParser) (numBytes : Z) :
  (entryIdLength (first_bitField p) = 0 ->
   parseRecord p = Err (InvalidVariableLength 0))
  /\ (payloadSizeLength (first_bitField p) = 0 ->
      exists e, parseRecord p = Err e)
  /\ (numBytes <> 1 -> numBytes <> 2 -> numBytes <> 3 -> numBytes <> 4 ->
      readVariableLength numBytes p = Err (InvalidVariableLength numBytes))
  /\ readVariableLengthBigInt 0 p = Ok 0 p
  /\ (forall (bitField0 : option byte) (eid sz : Z) (p1 p2 : WPILogParser),
        timestampLength bitField0 = 0 ->
        readVariableLength (entryIdLength bitField0) p = Ok eid p1 ->
        readVariableLength (payloadSizeLength bitField0) p1 = Ok sz p2 ->
        readHeaderFields bitField0 p = Ok (eid, sz, 0) p2).
Proof.
  repeat split.
  - intros H. apply parseRecord_of_frame_error.
    apply parseRecord_frame_zero_entryId. exact H.
  - intros H. destruct (parseRecord_frame_zero_payloadSize p H) as (e & He).
    exists e. apply parseRecord_of_frame_error. exact He.
  - apply readVariableLength_default.
  - intros bitField0 eid sz p1 p2. apply readHeaderFields_zero_timestamp.
Qed.

Lemma zero_width_rejected_witness :
  (* bit field 0x04: entry-id selector 0 *)
  parseRecord (buffered ["004"; "000"; "001"; "000"]%byte 0)
  = Err (InvalidVariableLength 0)
  (* bit field 0x01: payload-size selector 0 *)
  /\ (exists e, parseRecord (buffered ["001"; "000"; "001"; "000"]%byte 0) = Err e)
  (* widths 0 and 5 *)
  /\ readVariableLength 0 (buffered ["001"]%byte 0) = Err (InvalidVariableLength 0)
  /\ readVariableLength 5 (buffered ["001"]%byte 0) = Err (InvalidVariableLength 5)
  (* bit field 0x05: timestamp selector 0, entry id 9, payload size 2 *)
  /\ readHeaderFields (Some "005"%byte) (buffered ["009"; "002"]%byte 0)
     = Ok (9, 2, 0) (buffered ["009"; "002"]%byte 2).
Proof.
  split; [|split; [|split; [|split]]].
  - apply (zero_width_rejected (buffered ["004"; "000"; "001"; "000"]%byte 0) 0).
    reflexivity.
  - apply (zero_width_rejected (buffered ["001"; "000"; "001"; "000"]%byte 0) 0).
    reflexivity.
  - apply (zero_width_rejected (buffered ["001"]%byte 0) 0); discriminate.
  - apply (zero_width_rejected (buffered ["001"]%byte 0) 5); discriminate.
  - apply (zero_width_rejected (buffered ["009"; "002"]%byte 0) 0)
      with (p1 := buffered ["009"; "002"]%byte 1); reflexivity.
Defined.

(** C1, as the code has it.  The selectors are bits 0-1, 2-3 and 4-6 of the
    bit field, and each is the number of bytes of its field as it stands: a
    stored selector [w] makes the decoder read [w] bytes, so the three
    fields together take [entryIdLength + payloadSizeLength +
    timestampLength] bytes, and their values are the little-endian
    integers found there. *)
Theorem header_fields_raw_widths
    (bitField0 : option byte) (be bs bt pre post : list byte) (p : WPILogParser) :
  byteLength be = entryIdLength bitField0 ->
  byteLength bs = payloadSizeLength bitField0 ->
  byteLength bt = timestampLength bitField0 ->
  1 <= entryIdLength bitField0 ->
  1 <= payloadSizeLength bitField0 ->
  reader p = Some (pre ++ be ++ bs ++ bt ++ post) ->
  cursor p = byteLength pre ->
  entryIdLength bitField0 = operand bitField0 mod 4
  /\ payloadSizeLength bitField0 = (operand bitField0 / 4) mod 4
  /\ timestampLength bitField0 = (operand bitField0 / 16) mod 8
  /\ readHeaderFields bitField0 p
     = Ok (le_uint be, le_uint bs, le_uint bt)
          (set_cursor (cursor p + (entryIdLength bitField0
                                   + payloadSizeLength bitField0
                                   + timestampLength bitField0)) p).
Proof.
  intros Hbe Hbs Hbt He Hs Hr Hc.
  destruct (width_selectors bitField0) as (Se & Ss & St).
  split; [exact Se|]. split; [exact Ss|]. split; [exact St|].
  pose proof (width_selectors_range bitField0) as (Re & Rs & Rt).
  unfold readHeaderFields, bind.
  rewrite (readVariableLength_at (entryIdLength bitField0)
             be pre (bs ++ bt ++ post) p); try assumption; [|lia].
  rewrite (readVariableLength_at (payloadSizeLength bitField0)
             bs (pre ++ be) (bt ++ post)
             (set_cursor (cursor p + entryIdLength bitField0) p));
    try assumption.
  2:{ lia. }
  2:{ rewrite reader_set_cursor, Hr, <- app_assoc. reflexivity. }
  2:{ rewrite cursor_set_cursor, Hc, byteLength_app, Hbe. reflexivity. }
  rewrite cursor_set_cursor, set_cursor_twice.
  rewrite <- Hbt.
  rewrite (readVariableLengthBigInt_at _ (pre ++ be ++ bs) bt post).
  - unfold ret. rewrite cursor_set_cursor, set_cursor_twice.
    f_equal. f_equal. lia.
  - rewrite reader_set_cursor, Hr. f_equal. rewrite <- !app_assoc. reflexivity.
  - rewrite cursor_set_cursor, Hc, !byteLength_app, Hbe, Hbs. lia.
Qed.

(** Bit field 0x15 stores 1 in each selector; the fields 0x2A, 0x03 and
    0x07 that follow take three bytes. *)
Lemma header_fields_raw_widths_witness :
  readHeaderFields (Some "021"%byte) (buffered ["042"; "003"; "007"]%byte 0)
  = Ok (42, 3, 7) (buffered ["042"; "003"; "007"]%byte 3).
Proof.
  apply (header_fields_raw_widths (Some "021"%byte)
           ["042"%byte] ["003"%byte] ["007"%byte] [] []
           (buffered ["042"; "003"; "007"]%byte 0)).
  - reflexivity.
  - reflexivity.
  - reflexivity.
  - vm_compute; discriminate.
  - vm_compute; discriminate.
  - reflexivity.
  - reflexivity.
Defined.

(** The reading "a stored selector [w] means [w + 1] bytes" does not
    describe the code: with bit field 0x15 the three fields take 3 bytes,
    not 6, and the whole record of five bytes is consumed with its payload
    of length 0, where that reading needs seven bytes before the payload. *)
Lemma minus_one_widths_counterexample :
  ~ (forall (bitField0 : option byte) (p p' : WPILogParser) (fields : Z * Z * Z),
        readHeaderFields bitField0 p = Ok fields p' ->
        cursor p' - cursor p = minus_one_header_size bitField0)
  /\ ~ (forall (p p' : WPILogParser) (f : Frame),
          parseRecord_frame p = Ok f p' ->
          cursor p' - cursor p
          = 1 + minus_one_header_size (first_bitField p) + payloadSize f).
Proof.
  split.
  - intros H.
    specialize (H (Some "021"%byte) (buffered ["042"; "003"; "007"]%byte 0)
                  (buffered ["042"; "003"; "007"]%byte 3) (42, 3, 7) eq_refl).
    vm_compute in H. discriminate H.
  - intros H.
    specialize (H (buffered ["021"; "000"; "042"; "000"; "007"]%byte 0)).
    specialize (H _ _ eq_refl).
    vm_compute in H. discriminate H.
Qed.

(** ** Version numbers *)

Lemma parseVersion_small (bytes : Z) (p : WPILogParser) :
  0 <= bytes < 2 ^ 16 ->
  parseVersion bytes p = Ok (bytes / 256, bytes mod 256) p.
Proof.
  intros Hb.
  assert (Hmajor : JS.shr bytes 8 = bytes / 256) by (apply shr_div; lia).
  assert (Hminor : JS.and bytes 255 = bytes mod 256)
    by (apply (and_mask bytes 8); lia).
  unfold parseVersion. rewrite Hmajor, Hminor.
  assert (bytes / 256 < 256) by (apply Z.div_lt_upper_bound; lia).
  pose proof (Z.mod_pos_bound bytes 256).
  replace (255 <? bytes / 256) with false by (symmetry; apply Z.ltb_ge; lia).
  replace (255 <? bytes mod 256) with false by (symmetry; apply Z.ltb_ge; lia).
  reflexivity.
Qed.

(** C9. On a 16-bit unsigned value [parseVersion] returns the pair
    [(bytes >> 8, bytes & 0xff)], the high and the low byte, and does not
    throw: the [Invalid version] branch is not taken. *)
Theorem parseVersion_total (bytes : Z) (p : WPILogParser) :
  0 <= bytes < 2 ^ 16 ->
  parseVersion bytes p = Ok (Z.shiftr bytes 8, Z.land bytes 255) p
  /\ Z.shiftr bytes 8 = bytes / 256
  /\ Z.land bytes 255 = bytes mod 256
  /\ (forall e, parseVersion bytes p <> Err e).
Proof.
  intros Hb.
  assert (Hshift : Z.shiftr bytes 8 = bytes / 256)
    by (apply Z.shiftr_div_pow2; lia).
  assert (Hland : Z.land bytes 255 = bytes mod 256)
    by (apply (Z.land_ones bytes 8); lia).
  rewrite Hshift, Hland, (parseVersion_small bytes p Hb).
  repeat split. intros e. discriminate.
Qed.

Lemma parseVersion_total_witness :
  0 <= 512 < 2 ^ 16
  /\ parseVersion 512 (new_parser []) = Ok (2, 0) (new_parser []).
Proof.
  split; [lia|].
  apply (parseVersion_total 512 (new_parser [])). lia.
Defined.

(** ** Raw byte reads *)

(** C10. [readBytes] does not fail on a buffer that holds fewer than
    [length] bytes from the cursor on: it returns the bytes that are there,
    a view shorter than [length] that stops at the end of the buffer, and
    the cursor still moves by the full [length], past the end. *)
Theorem readBytes_underfilled (length : Z) (p : WPILogParser) :
  0 <= cursor p <= byteLength (buffer p) ->
  unread p < length ->
  readBytes length p
  = Ok (skipn (Z.to_nat (cursor p)) (buffer p)) (set_cursor (cursor p + length) p)
  /\ byteLength (skipn (Z.to_nat (cursor p)) (buffer p)) = unread p
  /\ byteLength (skipn (Z.to_nat (cursor p)) (buffer p)) < length
  /\ byteLength (buffer p) < cursor p + length.
Proof.
  unfold unread. intros Hc Hlen.
  assert (Hview : byteLength (skipn (Z.to_nat (cursor p)) (buffer p))
                  = byteLength (buffer p) - cursor p).
  { unfold byteLength in *. rewrite length_skipn. lia. }
  split; [|split; [|split]]; try lia.
  - unfold readBytes. cbn [buffer cursor set_cursor]. f_equal.
    unfold subarray, rel_index.
    replace (cursor p <? 0) with false by (symmetry; apply Z.ltb_ge; lia).
    replace (cursor p + length <? 0) with false by (symmetry; apply Z.ltb_ge; lia).
    rewrite (Z.min_l (cursor p)) by lia.
    rewrite (Z.min_r (cursor p + length)) by lia.
    apply firstn_all2. rewrite length_skipn. unfold byteLength in *. lia.
Qed.

Lemma readBytes_underfilled_witness :
  unread (buffered ["001"; "002"; "003"]%byte 1) < 6
  /\ readBytes 6 (buffered ["001"; "002"; "003"]%byte 1)
     = Ok ["002"; "003"]%byte (buffered ["001"; "002"; "003"]%byte 7).
Proof.
  split; [reflexivity|].
  apply (readBytes_underfilled 6 (buffered ["001"; "002"; "003"]%byte 1)).
  - cbn. lia.
  - reflexivity.
Defined.

(** [readBytes] has no failing path at all. *)
Lemma readBytes_total (length : Z) (p : WPILogParser) :
  exists view, readBytes length p = Ok view (set_cursor (cursor p + length) p).
Proof.
  eexists. reflexivity.
Qed.

(** ** Control records *)

(** C8, evaluated on the code.  [parseControlRecord] has an empty body: it
    reads no byte of the payload, builds no [ControlRecord] and never
    throws, whatever the first payload byte is; the control record of
    [tag3_record], whose tag is 3, goes through [parseRecord] without an
    error, and none of the suspended fills is short of a chunk. *)
Theorem parseControlRecord_ignores_tag :
  (forall (payload : Uint8Array) (entryId timestamp : Z) (p : WPILogParser),
      parseControlRecord payload entryId timestamp p = Ok None p)
  /\ (exists f p',
        parseRecord_frame tag3_record = Ok f p'
        /\ entryId f = 0 /\ payloadBytes f = ["003"%byte]
        /\ parseRecord tag3_record = Ok tt p'
        /\ forallb (fun d => match requested d with Some _ => true | None => false end)
                   (detached p') = true).
Proof.
  split.
  - reflexivity.
  - eexists. eexists. split; [vm_compute; reflexivity|].
    split; [|split; [|split]]; reflexivity.
Qed.

(** ** Filling the buffer *)

(** Whether the buffer is empty or not, the chunk ends up behind it. *)
Lemma readToBuffer_body_ok (p : WPILogParser) (chunk : Uint8Array) (rest : list Uint8Array) :
  stream p = chunk :: rest ->
  readToBuffer_body p = Ok tt (set_buffer (buffer p ++ chunk) (set_stream rest p)).
Proof.
  intros Hs. unfold readToBuffer_body. rewrite Hs.
  destruct (buffer p) as [|b bs] eqn:Hb; reflexivity.
Qed.

Lemma readToBuffer_body_exhausted (p : WPILogParser) :
  stream p = [] -> readToBuffer_body p = Err TypeError.
Proof.
  intros Hs. unfold readToBuffer_body. rewrite Hs. reflexivity.
Qed.

(** The loop takes one chunk per pass, whatever the chunks hold: it
    completes exactly when the source still has [n] chunks. *)
Lemma readToBuffer_loop_ok (n : nat) :
  forall p : WPILogParser,
    (n < List.length (stream p))%nat ->
    readToBuffer_loop (S n) p = Ok tt (pulled (S n) p).
Proof.
  induction n as [|n IH]; intros p Hn.
  - destruct (stream p) as [|chunk rest] eqn:Hs; [cbn in Hn; lia|].
    cbn [readToBuffer_loop]. unfold bind, ret.
    rewrite (readToBuffer_body_ok p chunk rest Hs).
    unfold pulled. rewrite Hs. cbn [firstn skipn List.concat].
    rewrite app_nil_r. reflexivity.
  - destruct (stream p) as [|chunk rest] eqn:Hs; [cbn in Hn; lia|].
    change (readToBuffer_loop (S (S n)) p)
      with (bind readToBuffer_body (fun _ => readToBuffer_loop (S n)) p).
    unfold bind.
    rewrite (readToBuffer_body_ok p chunk rest Hs).
    rewrite IH by (cbn in Hn |- *; lia).
    unfold pulled. rewrite Hs.
    cbn [stream buffer set_buffer set_stream].
    cbn [firstn skipn List.concat].
    unfold set_buffer, set_stream. cbn [stream buffer reader cursor header detached].
    rewrite <- app_assoc. reflexivity.
Qed.

Lemma readToBuffer_loop_exhausted (n : nat) :
  forall p : WPILogParser,
    (List.length (stream p) < n)%nat ->
    readToBuffer_loop n p = Err TypeError.
Proof.
  induction n as [|n IH]; intros p Hn; [lia|].
  cbn [readToBuffer_loop]. unfold bind.
  destruct (stream p) as [|chunk rest] eqn:Hs.
  - rewrite (readToBuffer_body_exhausted p Hs). reflexivity.
  - rewrite (readToBuffer_body_ok p chunk rest Hs).
    apply IH. cbn in Hn |- *. lia.
Qed.

(** What a completed fill leaves behind. *)
Lemma readToBuffer_ok_inv (length : Z) (p p1 : WPILogParser) :
  0 < length ->
  readToBuffer length p = Ok tt p1 ->
  (Z.to_nat length <= List.length (stream p))%nat
  /\ p1 = pulled (Z.to_nat length) p.
Proof.
  intros Hpos H. unfold readToBuffer in H.
  destruct (le_lt_dec (Z.to_nat length) (List.length (stream p))) as [Hle|Hlt].
  - split; [exact Hle|].
    destruct (Z.to_nat length) as [|n] eqn:Hn; [lia|].
    rewrite readToBuffer_loop_ok in H by lia.
    injection H as <-. reflexivity.
  - rewrite readToBuffer_loop_exhausted in H by exact Hlt. discriminate.
Qed.

Lemma pulled_fields (n : nat) (p : WPILogParser) :
  reader (pulled n p) = Some (buffer (pulled n p))
  /\ cursor (pulled n p) = cursor p
  /\ buffer (pulled n p) = buffer p ++ List.concat (firstn n (stream p))
  /\ stream (pulled n p) = skipn n (stream p).
Proof.
  repeat split.
Qed.

(** Chunks that all hold a byte bring at least one byte each. *)
Lemma concat_nonempty_length (chunks : list Uint8Array) :
  Forall (fun c => c <> []) chunks ->
  Z.of_nat (List.length chunks) <= byteLength (List.concat chunks).
Proof.
  induction 1 as [|c cs Hc _ IH].
  - cbn. lia.
  - cbn [List.concat List.length]. rewrite byteLength_app.
    destruct c as [|b c']; [contradiction|].
    unfold byteLength in *. cbn [List.length]. lia.
Qed.

(** The contract of the fill holds for sources that never deliver an empty
    chunk, as long as the cursor is inside the buffer. *)
Lemma readToBuffer_nonempty_chunks (length : Z) (p p1 : WPILogParser) :
  0 < length ->
  Forall (fun c => c <> []) (stream p) ->
  cursor p <= byteLength (buffer p) ->
  readToBuffer length p = Ok tt p1 ->
  length <= unread p1.
Proof.
  intros Hpos Hne Hc H.
  destruct (readToBuffer_ok_inv length p p1 Hpos H) as (Hle & ->).
  unfold unread.
  destruct (pulled_fields (Z.to_nat length) p) as (_ & -> & -> & _).
  rewrite byteLength_app.
  assert (Hf : Forall (fun c => c <> []) (firstn (Z.to_nat length) (stream p))).
  { apply Forall_forall. intros c Hin.
    apply (proj1 (Forall_forall _ _) Hne).
    rewrite <- (firstn_skipn (Z.to_nat length) (stream p)).
    apply in_or_app. left. exact Hin. }
  pose proof (concat_nonempty_length _ Hf) as Hb.
  rewrite length_firstn in Hb. lia.
Qed.

(** The loop never makes the buffer shorter. *)
Lemma readToBuffer_loop_grows (n : nat) :
  forall p p1 : WPILogParser,
    readToBuffer_loop n p = Ok tt p1 ->
    byteLength (buffer p) <= byteLength (buffer p1).
Proof.
  induction n as [|n IH]; intros p p1 H.
  - cbn in H. unfold ret in H. injection H as <-. lia.
  - cbn [readToBuffer_loop] in H. unfold bind in H.
    destruct (stream p) as [|chunk rest] eqn:Hs.
    + rewrite (readToBuffer_body_exhausted p Hs) in H. discriminate.
    + rewrite (readToBuffer_body_ok p chunk rest Hs) in H.
      apply IH in H. cbn [buffer set_buffer set_stream] in H.
      rewrite byteLength_app in H. pose proof (byteLength_nonneg chunk). lia.
Qed.

(** Nor does a pass of a suspended call, in any order of resumption. *)
Lemma detached_step_grows (p p' : WPILogParser) :
  detached_step p p' -> byteLength (buffer p) <= byteLength (buffer p').
Proof.
  intros [q q1 before after d next _ Hpass].
  unfold resume_pass in Hpass.
  destruct (requested d) as [chunk|]; [|discriminate].
  assert (Hgrow : byteLength (buffer q)
                  <= byteLength (if 0 <? byteLength (buffer q)
                                 then concatUint8Arrays (buffer q) chunk
                                 else chunk)).
  { destruct (0 <? byteLength (buffer q)) eqn:E.
    - unfold concatUint8Arrays. rewrite byteLength_app.
      pose proof (byteLength_nonneg chunk). lia.
    - apply Z.ltb_ge in E. pose proof (byteLength_nonneg chunk). lia. }
  destruct (passes d + 1 <? wanted d); injection Hpass as _ <-;
    cbn [buffer set_detached set_stream set_buffer]; exact Hgrow.
Qed.

Lemma detached_steps_grow (p p' : WPILogParser) :
  clos_refl_trans _ detached_step p p' ->
  byteLength (buffer p) <= byteLength (buffer p').
Proof.
  induction 1 as [p p' Hstep| p | p q r _ IH1 _ IH2].
  - apply detached_step_grows. exact Hstep.
  - lia.
  - lia.
Qed.

(** C3, evaluated on the code.  [readToBuffer(n)] counts chunks, not bytes,
    and never looks at [done].  From a source that delivers an empty chunk
    and then a one-byte chunk, [readToBuffer(2)] returns normally with one
    unread byte and the source exhausted; from a source that delivers twelve
    bytes in one chunk, [readToBuffer(12)] fails although the twelve bytes
    are in the buffer by then, and the failure is the [TypeError] of reading
    the missing chunk. *)
Theorem readToBuffer_counts_chunks :
  (exists p1,
      readToBuffer 2 (new_parser [[]; ["087"%byte]]) = Ok tt p1
      /\ buffer p1 = ["087"%byte] /\ unread p1 = 1 /\ stream p1 = [])
  /\ readToBuffer 12 (new_parser [plain_header]) = Err TypeError
  /\ (exists p1,
        readToBuffer 1 (new_parser [plain_header]) = Ok tt p1 /\ unread p1 = 12).
Proof.
  split; [|split].
  - eexists. split; [vm_compute; reflexivity|]. repeat split.
  - reflexivity.
  - eexists. split; [vm_compute; reflexivity|]. reflexivity.
Qed.

(** ** Compaction *)

Lemma readHeaderFields_ok
    (bitField0 : option byte) (q q' : WPILogParser) (fields : Z * Z * Z) :
  readHeaderFields bitField0 q = Ok fields q' ->
  q' = set_cursor (cursor q + (entryIdLength bitField0
                               + payloadSizeLength bitField0
                               + timestampLength bitField0)) q.
Proof.
  unfold readHeaderFields, bind, ret.
  destruct (readVariableLength (entryIdLength bitField0) q) as [eid q1|] eqn:E1;
    [|discriminate].
  destruct (readVariableLength (payloadSizeLength bitField0) q1) as [sz q2|] eqn:E2;
    [|discriminate].
  destruct (readVariableLengthBigInt (timestampLength bitField0) q2) as [ts q3|] eqn:E3;
    [|discriminate].
  intros H. injection H as _ <-.
  apply readVariableLength_ok in E1, E2. destruct E1 as [_ ->], E2 as [_ ->].
  apply readVariableLengthBigInt_loop_ok in E3. subst q3.
  pose proof (width_selectors_range bitField0) as (_ & _ & Rt).
  rewrite Z2Nat.id by lia.
  rewrite !cursor_set_cursor, !set_cursor_twice. f_equal. lia.
Qed.

(** [parseRecord] moves the cursor and nothing else of the buffer: no byte
    is released. *)
Lemma parseRecord_frame_keeps_buffer (p p' : WPILogParser) (f : Frame) :
  parseRecord_frame p = Ok f p' ->
  buffer p' = buffer p /\ reader p' = reader p.
Proof.
  destruct (parseRecord_frame_header p) as (q & Hb & Hr & _ & ->).
  unfold bind at 1.
  destruct (readHeaderFields (first_bitField p) q) as [[[eid sz] ts] q'|] eqn:E;
    [|discriminate].
  apply readHeaderFields_ok in E. subst q'.
  unfold bind, readToBuffer_detached, readBytes, ret.
  destruct (0 <? sz); intros H; injection H as _ <-;
    cbn [buffer reader set_cursor add_detached set_stream]; auto.
Qed.

Lemma parseRecord_keeps_buffer (p p' : WPILogParser) :
  parseRecord p = Ok tt p' -> buffer p' = buffer p.
Proof.
  unfold parseRecord, bind.
  destruct (parseRecord_frame p) as [f p1|] eqn:E; [|discriminate].
  apply parseRecord_frame_keeps_buffer in E. destruct E as [Hb _].
  unfold parseControlRecord, ret.
  destruct (entryId f =? 0); intros H; injection H as <-; exact Hb.
Qed.

Lemma detached_step_cursor (p p' : WPILogParser) :
  detached_step p p' -> cursor p' = cursor p.
Proof.
  intros [q q1 before after d next _ Hpass].
  unfold resume_pass in Hpass.
  destruct (requested d) as [chunk|]; [|discriminate].
  destruct (passes d + 1 <? wanted d); injection Hpass as _ <-; reflexivity.
Qed.

(** So once a record has been consumed the buffer keeps more bytes than are
    unread, also after the suspended fills have gone on, in any order. *)
Lemma parseRecord_never_compacts (p p1 p2 : WPILogParser) :
  0 <= cursor p ->
  parseRecord p = Ok tt p1 ->
  clos_refl_trans _ detached_step p1 p2 ->
  byteLength (buffer p) <= byteLength (buffer p2)
  /\ unread p2 < byteLength (buffer p2).
Proof.
  intros Hc Hrec Hsteps.
  assert (Hcur : cursor p2 = cursor p1).
  { clear Hrec. induction Hsteps as [a b Hstep| a | a b c _ IH1 _ IH2].
    - apply detached_step_cursor. exact Hstep.
    - reflexivity.
    - congruence. }
  pose proof (detached_steps_grow p1 p2 Hsteps) as Hgrow.
  rewrite (parseRecord_keeps_buffer p p1 Hrec) in Hgrow.
  split; [exact Hgrow|].
  unfold unread. rewrite Hcur.
  enough (cursor p + 2 <= cursor p1) by lia.
  clear Hsteps Hgrow Hcur p2.
  unfold parseRecord in Hrec. unfold bind at 1 in Hrec.
  destruct (parseRecord_frame p) as [f q1|] eqn:E; [|discriminate].
  assert (Hq : cursor p + 2 <= cursor q1).
  { destruct (parseRecord_frame_header p) as (q & _ & _ & Hq & Hdef).
    rewrite Hdef in E. unfold bind at 1 in E.
    destruct (readHeaderFields (first_bitField p) q) as [[[eid sz] ts] q'|] eqn:Ef;
      [|discriminate].
    pose proof Ef as Ef'. apply readHeaderFields_ok in Ef'. subst q'.
    pose proof (width_selectors_range (first_bitField p)) as (Re & Rs & Rt).
    assert (0 <= sz).
    { unfold readHeaderFields, bind, ret in Ef.
      destruct (readVariableLength (entryIdLength (first_bitField p)) q)
        as [eid' q1'|]; [|discriminate].
      destruct (readVariableLength (payloadSizeLength (first_bitField p)) q1')
        as [sz' q2'|] eqn:Es; [|discriminate].
      destruct (readVariableLengthBigInt (timestampLength (first_bitField p)) q2');
        [|discriminate].
      injection Ef as _ <- _ _.
      apply (readVariableLength_nonneg _ _ _ _ Es). }
    unfold bind, readToBuffer_detached, readBytes, ret in E.
    destruct (0 <? sz); injection E as _ <-;
      cbn [cursor set_cursor add_detached set_stream]; lia. }
  unfold bind, parseControlRecord, ret in Hrec.
  destruct (entryId f =? 0); injection Hrec as <-; exact Hq.
Qed.

(** C5, evaluated on the code.  After the header of [sample_log] the buffer
    holds the eleven bytes that follow it.  [parseRecord] then consumes the
    record of seven bytes, and the buffer still holds all eleven bytes while
    four are unread: [parseRecord] never calls [sliceBuffer]. *)
Theorem parseRecord_keeps_consumed_bytes (td : option (Uint8Array -> string)) :
  exists h p0 p1,
    parseHeader td (new_parser sample_log) = Ok h p0
    /\ byteLength (buffer p0) = 11 /\ cursor p0 = 0
    /\ parseRecord p0 = Ok tt p1
    /\ cursor p1 = 7
    /\ byteLength (buffer p1) = 11
    /\ unread p1 = 4
    /\ forallb (fun d => match requested d with Some _ => true | None => false end)
               (detached p1) = true.
Proof.
  eexists. eexists. eexists.
  split; [vm_compute; reflexivity|].
  split; [reflexivity|]. split; [reflexivity|].
  split; [vm_compute; reflexivity|].
  repeat split.
Qed.

(** [parseHeader] itself leaves the consumed bytes in the buffer when the
    header has an extra part: that branch returns before [sliceBuffer]. *)
Lemma parseHeader_extra_not_compacted :
  exists p1,
    parseHeader None
      (new_parser (bytewise (WPILOG_magic
                             ++ ["000"; "001"; "002"; "000"; "000"; "000"; "065"; "066"]%byte)))
    = Ok (mkHeader 256 "AB") p1
    /\ byteLength (buffer p1) = 14 /\ unread p1 = 0.
Proof.
  eexists. split; [vm_compute; reflexivity|]. split; reflexivity.
Qed.

(** ** The file header *)

Lemma subarray_at (pre bs post : list byte) :
  subarray (pre ++ bs ++ post) (byteLength pre) (byteLength pre + byteLength bs) = bs.
Proof.
  unfold subarray, rel_index. rewrite !byteLength_app.
  pose proof (byteLength_nonneg pre). pose proof (byteLength_nonneg bs).
  pose proof (byteLength_nonneg post).
  replace (byteLength pre <? 0) with false by (symmetry; apply Z.ltb_ge; lia).
  replace (byteLength pre + byteLength bs <? 0) with false
    by (symmetry; apply Z.ltb_ge; lia).
  rewrite !Z.min_l by lia.
  replace (Z.max (byteLength pre + byteLength bs - byteLength pre) 0)
    with (byteLength bs) by lia.
  unfold byteLength. rewrite !Nat2Z.id.
  rewrite skipn_app, skipn_all, Nat.sub_diag. cbn [skipn app].
  rewrite firstn_app, firstn_all, Nat.sub_diag. cbn [firstn].
  apply app_nil_r.
Qed.

(** The string made of the bytes found is ["WPILOG"] only for the magic. *)
Lemma fromCharCode_magic (found : Uint8Array) :
  String.eqb (fromCharCode found) "WPILOG" = true <-> found = WPILOG_magic.
Proof.
  unfold fromCharCode, WPILOG_magic. rewrite String.eqb_eq. split.
  - intros H. rewrite <- H. symmetry. apply list_byte_of_string_of_list_byte.
  - intros ->. apply string_of_list_byte_of_string.
Qed.

Section HeaderProperties.

Variable td : option (Uint8Array -> string).

Lemma parseHeader_fill_error (p : WPILogParser) (e : error) :
  readToBuffer 12 p = Err e -> parseHeader td p = Err e.
Proof.
  intros H. unfold parseHeader. cbv zeta. change (6 + 2 + 4) with 12.
  unfold bind at 1. rewrite H. reflexivity.
Qed.

(** A magic that differs is reported, as the string of the bytes found. *)
Lemma parseHeader_magic_mismatch (p p1 : WPILogParser) :
  readToBuffer 12 p = Ok tt p1 ->
  magic_found p1 <> WPILOG_magic ->
  parseHeader td p = Err (InvalidMagic (fromCharCode (magic_found p1))).
Proof.
  intros Hfill Hne. unfold parseHeader. cbv zeta. change (6 + 2 + 4) with 12.
  unfold bind at 1. rewrite Hfill.
  unfold bind at 1. unfold readBytes at 1. cbn [buffer cursor set_cursor].
  fold (magic_found p1).
  destruct (String.eqb (fromCharCode (magic_found p1)) "WPILOG") eqn:E.
  - apply fromCharCode_magic in E. contradiction.
  - reflexivity.
Qed.

(** With the magic in place no magic error is raised, whatever happens to
    the rest of the header. *)
Lemma parseHeader_magic_match (p p1 : WPILogParser) (m : string) :
  readToBuffer 12 p = Ok tt p1 ->
  magic_found p1 = WPILOG_magic ->
  parseHeader td p <> Err (InvalidMagic m).
Proof.
  intros Hfill Heq. unfold parseHeader. cbv zeta. change (6 + 2 + 4) with 12.
  unfold bind at 1. rewrite Hfill.
  unfold bind at 1. unfold readBytes at 1. cbn [buffer cursor set_cursor].
  fold (magic_found p1).
  rewrite (proj2 (fromCharCode_magic (magic_found p1)) Heq). cbn [negb].
  unfold bind at 1.
  destruct (readU16 _) as [v q|e] eqn:E16.
  2:{ unfold readU16, read_view in E16.
      destruct (reader _); [destruct (getUint16 _ _)|]; try discriminate;
        injection E16 as <-; discriminate. }
  destruct (negb (v =? 256)).
  { unfold bind, parseVersion, throw, ret.
    destruct (_ || _); discriminate. }
  unfold bind at 1.
  destruct (readU32 q) as [n q'|e] eqn:E32.
  2:{ unfold readU32, read_view in E32.
      destruct (reader _); [destruct (getUint32 _ _)|]; try discriminate;
        injection E32 as <-; discriminate. }
  destruct (0 <? n).
  - unfold bind at 1.
    destruct (readToBuffer n q') as [[] q2|e] eqn:Efill.
    + unfold bind, readBytes, ret. discriminate.
    + unfold readToBuffer in Efill.
      destruct (le_lt_dec (Z.to_nat n) (List.length (stream q'))) as [Hle|Hlt].
      * destruct (Z.to_nat n) as [|k]; [discriminate|].
        rewrite readToBuffer_loop_ok in Efill by lia. discriminate.
      * rewrite readToBuffer_loop_exhausted in Efill by exact Hlt.
        injection Efill as <-. discriminate.
  - unfold bind, get, sliceBuffer, ret.
    destruct (cursor q' <=? 0); discriminate.
Qed.

(** A header is returned only when the magic was found and the version
    is 1.0. *)
Lemma parseHeader_ok_inv (p p' : WPILogParser) (h : Header) :
  parseHeader td p = Ok h p' ->
  exists p1,
    readToBuffer 12 p = Ok tt p1
    /\ magic_found p1 = WPILOG_magic
    /\ version h = 256.
Proof.
  unfold parseHeader. cbv zeta. change (6 + 2 + 4) with 12.
  unfold bind at 1.
  destruct (readToBuffer 12 p) as [[] p1|e] eqn:Hfill; [|discriminate].
  unfold bind at 1. unfold readBytes at 1. cbn [buffer cursor set_cursor].
  fold (magic_found p1).
  destruct (String.eqb (fromCharCode (magic_found p1)) "WPILOG") eqn:E;
    cbn [negb]; [|discriminate].
  apply fromCharCode_magic in E.
  unfold bind at 1.
  destruct (readU16 _) as [v q|e]; [|discriminate].
  destruct (Z.eqb_spec v 256) as [->|Hv]; cbn [negb].
  2:{ unfold bind, throw. destruct (parseVersion v q); discriminate. }
  intros H. exists p1. split; [reflexivity|]. split; [exact E|].
  revert H. unfold bind at 1.
  destruct (readU32 q) as [n q'|e]; [|discriminate].
  destruct (0 <? n).
  - unfold bind at 1. destruct (readToBuffer n q') as [[] q2|e]; [|discriminate].
    unfold bind, readBytes, ret. intros H. injection H as <- _. reflexivity.
  - unfold bind, get, ret. destruct (sliceBuffer _ _); [|discriminate].
    intros H. injection H as <- _. reflexivity.
Qed.

(** C2, as the code has it.  Once the fill of the fixed header has
    completed and the magic is in place, a version field other than
    0x0100 makes [parseHeader] fail with the error that reports the
    decoded version: major is the high byte of the little-endian value,
    that is the second byte of the stream, and minor the low byte, the
    first.  So the stream bytes 0x00 0x02 report 2.0 and the stream bytes
    0x02 0x00 report 0.2. *)
Theorem parseHeader_version_mismatch
    (p p1 : WPILogParser) (pre post : list byte) (v0 v1 : byte) :
  readToBuffer 12 p = Ok tt p1 ->
  buffer p1 = pre ++ WPILOG_magic ++ [v0; v1] ++ post ->
  cursor p1 = byteLength pre ->
  le_uint [v0; v1] <> 256 ->
  parseHeader td p = Err (UnsupportedVersion (byte_val v1) (byte_val v0)).
Proof.
  intros Hfill Hb Hc Hv.
  destruct (readToBuffer_ok_inv 12 p p1 ltac:(lia) Hfill) as (_ & Hp1).
  assert (Hr : reader p1 = Some (buffer p1)).
  { rewrite Hp1. apply pulled_fields. }
  unfold parseHeader. cbv zeta. change (6 + 2 + 4) with 12.
  unfold bind at 1. rewrite Hfill.
  unfold bind at 1. unfold readBytes at 1. cbn [buffer cursor set_cursor].
  rewrite Hb, Hc.
  change 6 with (byteLength WPILOG_magic) at 1.
  rewrite subarray_at.
  rewrite (proj2 (fromCharCode_magic WPILOG_magic) eq_refl). cbn [negb].
  unfold bind at 1.
  rewrite (readU16_at _ (pre ++ WPILOG_magic) post v0 v1).
  2:{ rewrite reader_set_cursor, Hr, Hb, <- app_assoc. reflexivity. }
  2:{ rewrite cursor_set_cursor, byteLength_app. reflexivity. }
  destruct (Z.eqb_spec (le_uint [v0; v1]) 256) as [E|_]; [contradiction|].
  cbn [negb]. unfold bind, throw.
  pose proof (byte_val_range v0). pose proof (byte_val_range v1).
  rewrite parseVersion_small by (cbn [le_uint]; lia).
  cbn [fst snd le_uint]. f_equal. f_equal.
  - rewrite Z.add_0_r.
    rewrite (Z.mul_comm 256), Z.div_add by lia.
    rewrite Z.div_small by lia. reflexivity.
  - rewrite Z.add_0_r.
    rewrite (Z.mul_comm 256), Z.mod_add by lia.
    apply Z.mod_small. lia.
Qed.

End HeaderProperties.

Lemma parseHeader_version_mismatch_witness :
  le_uint ["000"; "002"]%byte <> 256
  /\ parseHeader None (new_parser (bytewise (versioned_header "000" "002")))
     = Err (UnsupportedVersion 2 0)
  /\ message (UnsupportedVersion 2 0)
     = Some "Unsupported WPI Data Log version: 2.0. Supported: 1.0"%string.
Proof.
  split; [vm_compute; discriminate|]. split; [|reflexivity].
  apply (parseHeader_version_mismatch None
           (new_parser (bytewise (versioned_header "000" "002")))
           (pulled 12 (new_parser (bytewise (versioned_header "000" "002"))))
           [] ["000"; "000"; "000"; "000"]%byte "000"%byte "002"%byte).
  - reflexivity.
  - reflexivity.
  - reflexivity.
  - vm_compute; discriminate.
Defined.

(** The version bytes 0x02 0x00, in this order in the stream, decode to
    0x0002: the error reports major 0 and minor 2, not major 2 and minor 0. *)
Lemma version_bytes_02_00_counterexample :
  parseHeader None (new_parser (bytewise (versioned_header "002" "000")))
  = Err (UnsupportedVersion 0 2)
  /\ parseHeader None (new_parser (bytewise (versioned_header "002" "000")))
     <> Err (UnsupportedVersion 2 0).
Proof.
  split.
  - vm_compute. reflexivity.
  - vm_compute. discriminate.
Qed.

(** From a fresh parser: a header comes back only if the source starts with
    the magic. *)
Lemma parseHeader_never_proceeds
    (td : option (Uint8Array -> string)) (chunks : list Uint8Array)
    (h : Header) (p' : WPILogParser) :
  parseHeader td (new_parser chunks) = Ok h p' ->
  firstn 6 (List.concat chunks) = WPILOG_magic.
Proof.
  intros H. destruct (parseHeader_ok_inv td _ _ _ H) as (p1 & Hfill & Hm & _).
  destruct (readToBuffer_ok_inv 12 _ p1 ltac:(lia) Hfill) as (_ & ->).
  unfold magic_found in Hm.
  destruct (pulled_fields (Z.to_nat 12) (new_parser chunks)) as (_ & Hc & Hb & _).
  rewrite Hc, Hb in Hm. cbn [buffer cursor stream new_parser app] in Hm.
  set (B := List.concat (firstn (Z.to_nat 12) chunks)) in *.
  assert (HB : firstn 6 B = WPILOG_magic).
  { rewrite <- Hm. unfold subarray, rel_index.
    pose proof (byteLength_nonneg B).
    cbn [Z.ltb Z.compare Z.add Z.to_nat skipn].
    rewrite (Z.min_l 0) by lia. rewrite Z.sub_0_r. cbn [Z.to_nat skipn].
    destruct (Z.le_ge_cases 6 (byteLength B)).
    - rewrite Z.min_l, Z.max_l by lia. reflexivity.
    - rewrite Z.min_r, Z.max_l by lia. unfold byteLength. rewrite Nat2Z.id.
      rewrite firstn_all. apply firstn_all2. unfold byteLength in *. lia. }
  rewrite <- (firstn_skipn (Z.to_nat 12) chunks), concat_app. fold B.
  rewrite firstn_app.
  assert (6 <= List.length B)%nat.
  { assert (E : List.length (firstn 6 B) = 6%nat) by (rewrite HB; reflexivity).
    rewrite length_firstn in E. lia. }
  replace (6 - List.length B)%nat with 0%nat by lia.
  cbn [firstn]. rewrite app_nil_r. exact HB.
Qed.

(** C6, evaluated on the code.  When the source delivers the twelve bytes
    ["WPILOX"], 0, 1, 0, 0, 0, 0 as one chunk, [parseHeader] fails in the
    fill, on the second chunk it asks for, with the [TypeError] of the
    missing chunk: the magic is never compared and the bytes found are not
    reported.  The same bytes delivered one per chunk give the magic error
    with the string ["WPILOX"]. *)
Theorem parseHeader_single_chunk_magic (td : option (Uint8Array -> string)) :
  parseHeader td (new_parser [bad_magic_header]) = Err TypeError
  /\ parseHeader td (new_parser (bytewise bad_magic_header))
     = Err (InvalidMagic "WPILOX").
Proof.
  split; reflexivity.
Qed.

(** * Further properties of the methods *)

(** ** Reads through the reader, with their errors *)

Lemma view_bytes_in_range (dv : DataView) (offset : Z) (n : nat) :
  0 <= offset -> offset + Z.of_nat n <= byteLength dv ->
  view_bytes dv offset n = Some (firstn n (skipn (Z.to_nat offset) dv))
  /\ List.length (firstn n (skipn (Z.to_nat offset) dv)) = n.
Proof.
  intros H0 H1. unfold view_bytes.
  replace (0 <=? offset) with true by (symmetry; apply Z.leb_le; lia).
  replace (offset + Z.of_nat n <=? byteLength dv) with true
    by (symmetry; apply Z.leb_le; lia).
  split; [reflexivity|].
  rewrite length_firstn, length_skipn. unfold byteLength in H1. lia.
Qed.

Lemma view_bytes_out_of_range (dv : DataView) (offset : Z) (n : nat) :
  offset < 0 \/ byteLength dv < offset + Z.of_nat n ->
  view_bytes dv offset n = None.
Proof.
  intros H. unfold view_bytes.
  destruct (Z.leb_spec 0 offset); [|reflexivity].
  destruct (Z.leb_spec (offset + Z.of_nat n) (byteLength dv)); [lia|reflexivity].
Qed.

(** A view cut at an offset inside it. *)
Lemma view_split (dv : DataView) (offset : Z) (n : nat) :
  0 <= offset -> offset + Z.of_nat n <= byteLength dv ->
  dv = firstn (Z.to_nat offset) dv
       ++ firstn n (skipn (Z.to_nat offset) dv)
       ++ skipn n (skipn (Z.to_nat offset) dv)
  /\ byteLength (firstn (Z.to_nat offset) dv) = offset.
Proof.
  intros H0 H1. split.
  - rewrite firstn_skipn, firstn_skipn. reflexivity.
  - unfold byteLength in *. rewrite length_firstn. lia.
Qed.

Lemma in_range_test (c w len : Z) :
  ((0 <=? c) && (c + w <=? len) = true <-> 0 <= c /\ c + w <= len).
Proof.
  rewrite andb_true_iff, !Z.leb_le. reflexivity.
Qed.

Lemma readU8_checked (p : WPILogParser) : readU8 p = checked_read 1 p.
Proof.
  unfold checked_read. destruct (reader p) as [dv|] eqn:Hr.
  2:{ unfold readU8, read_view. rewrite Hr. reflexivity. }
  destruct ((0 <=? cursor p) && (cursor p + 1 <=? byteLength dv)) eqn:E.
  - apply in_range_test in E. destruct E as [H0 H1].
    destruct (view_split dv (cursor p) 1 H0 ltac:(lia)) as [Hdv Hpre].
    destruct (view_bytes_in_range dv (cursor p) 1 H0 ltac:(lia)) as [_ Hlen].
    change (Z.to_nat 1) with 1%nat.
    destruct (firstn 1 (skipn (Z.to_nat (cursor p)) dv)) as [|b0 [|? ?]] eqn:Hb;
      try discriminate.
    rewrite (readU8_at p (firstn (Z.to_nat (cursor p)) dv)
               (skipn 1 (skipn (Z.to_nat (cursor p)) dv)) b0).
    + cbn [le_uint]. f_equal. lia.
    + rewrite Hr. f_equal. exact Hdv.
    + symmetry. exact Hpre.
  - unfold readU8, read_view, getUint8. rewrite Hr.
    rewrite view_bytes_out_of_range; [reflexivity|].
    destruct (Z.leb_spec 0 (cursor p)); [|lia].
    destruct (Z.leb_spec (cursor p + 1) (byteLength dv)); [discriminate|lia].
Qed.

Lemma readU16_checked (p : WPILogParser) : readU16 p = checked_read 2 p.
Proof.
  unfold checked_read. destruct (reader p) as [dv|] eqn:Hr.
  2:{ unfold readU16, read_view. rewrite Hr. reflexivity. }
  destruct ((0 <=? cursor p) && (cursor p + 2 <=? byteLength dv)) eqn:E.
  - apply in_range_test in E. destruct E as [H0 H1].
    destruct (view_split dv (cursor p) 2 H0 ltac:(lia)) as [Hdv Hpre].
    destruct (view_bytes_in_range dv (cursor p) 2 H0 ltac:(lia)) as [_ Hlen].
    change (Z.to_nat 2) with 2%nat.
    destruct (firstn 2 (skipn (Z.to_nat (cursor p)) dv)) as [|b0 [|b1 [|? ?]]] eqn:Hb;
      try discriminate.
    apply (readU16_at p (firstn (Z.to_nat (cursor p)) dv)
             (skipn 2 (skipn (Z.to_nat (cursor p)) dv)) b0 b1).
    + rewrite Hr. f_equal. exact Hdv.
    + symmetry. exact Hpre.
  - unfold readU16, read_view, getUint16. rewrite Hr.
    rewrite view_bytes_out_of_range; [reflexivity|].
    destruct (Z.leb_spec 0 (cursor p)); [|lia].
    destruct (Z.leb_spec (cursor p + 2) (byteLength dv)); [discriminate|lia].
Qed.

Lemma readU32_checked (p : WPILogParser) : readU32 p = checked_read 4 p.
Proof.
  unfold checked_read. destruct (reader p) as [dv|] eqn:Hr.
  2:{ unfold readU32, read_view. rewrite Hr. reflexivity. }
  destruct ((0 <=? cursor p) && (cursor p + 4 <=? byteLength dv)) eqn:E.
  - apply in_range_test in E. destruct E as [H0 H1].
    destruct (view_split dv (cursor p) 4 H0 ltac:(lia)) as [Hdv Hpre].
    destruct (view_bytes_in_range dv (cursor p) 4 H0 ltac:(lia)) as [_ Hlen].
    change (Z.to_nat 4) with 4%nat.
    destruct (firstn 4 (skipn (Z.to_nat (cursor p)) dv))
      as [|b0 [|b1 [|b2 [|b3 [|? ?]]]]] eqn:Hb; try discriminate.
    apply (readU32_at p (firstn (Z.to_nat (cursor p)) dv)
             (skipn 4 (skipn (Z.to_nat (cursor p)) dv)) b0 b1 b2 b3).
    + rewrite Hr. f_equal. exact Hdv.
    + symmetry. exact Hpre.
  - unfold readU32, read_view, getUint32. rewrite Hr.
    rewrite view_bytes_out_of_range; [reflexivity|].
    destruct (Z.leb_spec 0 (cursor p)); [|lia].
    destruct (Z.leb_spec (cursor p + 4) (byteLength dv)); [discriminate|lia].
Qed.

Lemma checked_read_out_of_range (w : Z) (p : WPILogParser) (dv : DataView) :
  reader p = Some dv ->
  cursor p < 0 \/ byteLength dv < cursor p + w ->
  checked_read w p = Err RangeError.
Proof.
  intros Hr H. unfold checked_read. rewrite Hr.
  destruct ((0 <=? cursor p) && (cursor p + w <=? byteLength dv)) eqn:E;
    [|reflexivity].
  apply in_range_test in E. lia.
Qed.

Lemma checked_read_in_range (w : Z) (p : WPILogParser) (dv : DataView) :
  reader p = Some dv ->
  0 <= cursor p -> cursor p + w <= byteLength dv ->
  checked_read w p
  = Ok (le_uint (firstn (Z.to_nat w) (skipn (Z.to_nat (cursor p)) dv)))
       (set_cursor (cursor p + w) p).
Proof.
  intros Hr H0 H1. unfold checked_read. rewrite Hr.
  rewrite (proj2 (in_range_test (cursor p) w (byteLength dv))) by lia.
  reflexivity.
Qed.

Lemma readVariableLength_checked (w : Z) (p : WPILogParser) :
  w = 1 \/ w = 2 \/ w = 3 \/ w = 4 ->
  readVariableLength w p = checked_read w p.
Proof.
  intros [-> | [-> | [-> | ->]]].
  - apply readU8_checked.
  - apply readU16_checked.
  - destruct (reader p) as [dv|] eqn:Hr.
    2:{ unfold readVariableLength. cbn [Z.eqb Pos.eqb]. unfold bind.
        rewrite readU8_checked. unfold checked_read. rewrite Hr. reflexivity. }
    destruct (Z.lt_ge_cases (cursor p) 0) as [Hneg|H0].
    { rewrite (checked_read_out_of_range 3 p dv Hr) by lia.
      unfold readVariableLength. cbn [Z.eqb Pos.eqb]. unfold bind.
      rewrite readU8_checked.
      rewrite (checked_read_out_of_range 1 p dv Hr) by lia. reflexivity. }
    destruct (Z.le_gt_cases (cursor p + 3) (byteLength dv)) as [H1|H1].
    + rewrite (checked_read_in_range 3 p dv Hr H0 H1).
      destruct (view_split dv (cursor p) 3 H0 ltac:(lia)) as [Hdv Hpre].
      destruct (view_bytes_in_range dv (cursor p) 3 H0 ltac:(lia)) as [_ Hlen].
      change (Z.to_nat 3) with 3%nat.
      destruct (firstn 3 (skipn (Z.to_nat (cursor p)) dv))
        as [|b0 [|b1 [|b2 [|? ?]]]] eqn:Hb; try discriminate.
      apply (readVariableLength_3_at p (firstn (Z.to_nat (cursor p)) dv)
               (skipn 3 (skipn (Z.to_nat (cursor p)) dv)) b0 b1 b2).
      * rewrite Hr. f_equal. exact Hdv.
      * symmetry. exact Hpre.
    + rewrite (checked_read_out_of_range 3 p dv Hr) by lia.
      unfold readVariableLength. cbn [Z.eqb Pos.eqb]. unfold bind.
      rewrite readU8_checked.
      destruct (Z.le_gt_cases (cursor p + 1) (byteLength dv)) as [Ha|Ha].
      2:{ rewrite (checked_read_out_of_range 1 p dv Hr) by lia. reflexivity. }
      rewrite (checked_read_in_range 1 p dv Hr H0 Ha).
      rewrite readU8_checked.
      destruct (Z.le_gt_cases (cursor p + 1 + 1) (byteLength dv)) as [Hb|Hb].
      2:{ rewrite (checked_read_out_of_range 1 _ dv) by (cbn; auto; lia).
          reflexivity. }
      rewrite (checked_read_in_range 1 _ dv) by (cbn; auto; lia).
      rewrite readU8_checked.
      rewrite (checked_read_out_of_range 1 _ dv) by (cbn; auto; lia).
      reflexivity.
  - apply readU32_checked.
Qed.

Lemma readVariableLengthBigInt_loop_out_of_range (n : nat) :
  forall (p : WPILogParser) (dv : DataView) (value shift : Z),
    reader p = Some dv ->
    cursor p < 0 \/ byteLength dv < cursor p + Z.of_nat (S n) ->
    readVariableLengthBigInt_loop (S n) value shift p = Err RangeError.
Proof.
  induction n as [|n IH]; intros p dv value shift Hr Hout.
  - cbn [readVariableLengthBigInt_loop]. unfold bind.
    rewrite readU8_checked.
    rewrite (checked_read_out_of_range 1 p dv Hr) by lia. reflexivity.
  - change (readVariableLengthBigInt_loop (S (S n)) value shift p)
      with (bind readU8
              (fun byte => readVariableLengthBigInt_loop (S n)
                             (Z.lor value (Z.shiftl byte shift)) (shift + 8)) p).
    unfold bind. rewrite readU8_checked.
    destruct (Z.lt_ge_cases (cursor p) 0) as [Hneg|H0].
    { rewrite (checked_read_out_of_range 1 p dv Hr) by lia. reflexivity. }
    destruct (Z.le_gt_cases (cursor p + 1) (byteLength dv)) as [Ha|Ha].
    2:{ rewrite (checked_read_out_of_range 1 p dv Hr) by lia. reflexivity. }
    rewrite (checked_read_in_range 1 p dv Hr H0 Ha).
    apply (IH _ dv); [exact Hr|]. cbn [cursor set_cursor]. lia.
Qed.

Lemma readVariableLengthBigInt_checked (n : Z) (p : WPILogParser) :
  1 <= n -> readVariableLengthBigInt n p = checked_read n p.
Proof.
  intros Hn. unfold readVariableLengthBigInt.
  destruct (Z.to_nat n) as [|k] eqn:Hk; [lia|].
  destruct (reader p) as [dv|] eqn:Hr.
  2:{ cbn [readVariableLengthBigInt_loop]. unfold bind.
      rewrite readU8_checked. unfold checked_read. rewrite Hr. reflexivity. }
  destruct (Z.lt_ge_cases (cursor p) 0) as [Hneg|H0].
  { rewrite (checked_read_out_of_range n p dv Hr) by lia.
    apply (readVariableLengthBigInt_loop_out_of_range k p dv); [exact Hr|lia]. }
  destruct (Z.le_gt_cases (cursor p + n) (byteLength dv)) as [H1|H1].
  - rewrite (checked_read_in_range n p dv Hr H0 H1).
    destruct (view_split dv (cursor p) (S k) H0 ltac:(lia)) as [Hdv Hpre].
    destruct (view_bytes_in_range dv (cursor p) (S k) H0 ltac:(lia)) as [_ Hlen].
    rewrite Hk.
    set (bs := firstn (S k) (skipn (Z.to_nat (cursor p)) dv)) in *.
    rewrite <- Hlen at 1.
    rewrite (readVariableLengthBigInt_loop_at bs p
               (firstn (Z.to_nat (cursor p)) dv)
               (skipn (S k) (skipn (Z.to_nat (cursor p)) dv)) 0 0).
    + f_equal; [lia|]. f_equal. unfold byteLength. lia.
    + rewrite Hr. f_equal. exact Hdv.
    + symmetry. exact Hpre.
    + lia.
    + lia.
  - rewrite (checked_read_out_of_range n p dv Hr) by lia.
    apply (readVariableLengthBigInt_loop_out_of_range k p dv); [exact Hr|lia].
Qed.

(** X1. [readVariableLength] with a width of 1 to 4 has exactly three
    outcomes: a [TypeError] while the parser has no reader, a [RangeError]
    when the field does not lie inside the view (the cursor negative, or
    fewer than [w] bytes from the cursor on), and otherwise the little-endian
    value of the [w] bytes at the cursor with the cursor moved by [w].  It
    never returns a value made of fewer bytes. *)
Theorem readVariableLength_outcomes (w : Z) (p : WPILogParser) :
  w = 1 \/ w = 2 \/ w = 3 \/ w = 4 ->
  (reader p = None -> readVariableLength w p = Err TypeError)
  /\ (forall dv, reader p = Some dv ->
        cursor p < 0 \/ byteLength dv < cursor p + w ->
        readVariableLength w p = Err RangeError)
  /\ (forall dv, reader p = Some dv ->
        0 <= cursor p -> cursor p + w <= byteLength dv ->
        readVariableLength w p
        = Ok (le_uint (firstn (Z.to_nat w) (skipn (Z.to_nat (cursor p)) dv)))
             (set_cursor (cursor p + w) p)).
Proof.
  intros Hw. rewrite (readVariableLength_checked w p Hw).
  split; [|split].
  - intros Hr. unfold checked_read. rewrite Hr. reflexivity.
  - intros dv Hr Hout. apply (checked_read_out_of_range w p dv Hr Hout).
  - intros dv Hr H0 H1. apply (checked_read_in_range w p dv Hr H0 H1).
Qed.

Lemma readVariableLength_outcomes_witness :
  readVariableLength 2 (new_parser []) = Err TypeError
  /\ readVariableLength 2 (buffered ["001"; "002"; "003"]%byte 2) = Err RangeError
  /\ readVariableLength 2 (buffered ["001"; "002"; "003"]%byte 1)
     = Ok 770 (buffered ["001"; "002"; "003"]%byte 3).
Proof.
  split; [|split].
  - apply (readVariableLength_outcomes 2 (new_parser [])).
    + right; left; reflexivity.
    + reflexivity.
  - apply (readVariableLength_outcomes 2 (buffered ["001"; "002"; "003"]%byte 2))
      with (dv := ["001"; "002"; "003"]%byte).
    + right; left; reflexivity.
    + reflexivity.
    + right. cbn. lia.
  - apply (readVariableLength_outcomes 2 (buffered ["001"; "002"; "003"]%byte 1))
      with (dv := ["001"; "002"; "003"]%byte).
    + right; left; reflexivity.
    + reflexivity.
    + cbn. lia.
    + cbn. lia.
Defined.

(** X2. [readVariableLengthBigInt] decodes any number of bytes, also the
    widths 5 to 8 that [readVariableLength] refuses: for [n >= 1] bytes
    inside the view it returns their little-endian value exactly, a number
    below [256^n], with the cursor moved by [n]; when the [n] bytes are not
    all inside the view it fails with a [RangeError], and without a reader
    with a [TypeError]. *)
Theorem readVariableLengthBigInt_outcomes (n : Z) (p : WPILogParser) :
  1 <= n ->
  (reader p = None -> readVariableLengthBigInt n p = Err TypeError)
  /\ (forall dv, reader p = Some dv ->
        cursor p < 0 \/ byteLength dv < cursor p + n ->
        readVariableLengthBigInt n p = Err RangeError)
  /\ (forall dv, reader p = Some dv ->
        0 <= cursor p -> cursor p + n <= byteLength dv ->
        readVariableLengthBigInt n p
        = Ok (le_uint (firstn (Z.to_nat n) (skipn (Z.to_nat (cursor p)) dv)))
             (set_cursor (cursor p + n) p)
        /\ 0 <= le_uint (firstn (Z.to_nat n) (skipn (Z.to_nat (cursor p)) dv))
           < 256 ^ n).
Proof.
  intros Hn. rewrite (readVariableLengthBigInt_checked n p Hn).
  split; [|split].
  - intros Hr. unfold checked_read. rewrite Hr. reflexivity.
  - intros dv Hr Hout. apply (checked_read_out_of_range n p dv Hr Hout).
  - intros dv Hr H0 H1. split.
    + apply (checked_read_in_range n p dv Hr H0 H1).
    + destruct (view_bytes_in_range dv (cursor p) (Z.to_nat n) H0 ltac:(lia))
        as [_ Hlen].
      pose proof (le_uint_range (firstn (Z.to_nat n) (skipn (Z.to_nat (cursor p)) dv)))
        as Hrange.
      rewrite Hlen, Z2Nat.id in Hrange by lia. exact Hrange.
Qed.

Lemma readVariableLengthBigInt_outcomes_witness :
  readVariableLengthBigInt 7 (new_parser []) = Err TypeError
  /\ readVariableLengthBigInt 7 (buffered ["001"; "002"; "003"]%byte 0)
     = Err RangeError
  /\ readVariableLengthBigInt 7
       (buffered ["255"; "255"; "255"; "255"; "255"; "255"; "255"]%byte 0)
     = Ok 72057594037927935
          (buffered ["255"; "255"; "255"; "255"; "255"; "255"; "255"]%byte 7).
Proof.
  split; [|split].
  - apply (readVariableLengthBigInt_outcomes 7 (new_parser [])); [lia|reflexivity].
  - apply (readVariableLengthBigInt_outcomes 7 (buffered ["001"; "002"; "003"]%byte 0))
      with (dv := ["001"; "002"; "003"]%byte).
    + lia.
    + reflexivity.
    + right. cbn. lia.
  - apply (readVariableLengthBigInt_outcomes 7
             (buffered ["255"; "255"; "255"; "255"; "255"; "255"; "255"]%byte 0))
      with (dv := ["255"; "255"; "255"; "255"; "255"; "255"; "255"]%byte).
    + lia.
    + reflexivity.
    + cbn. lia.
    + cbn. lia.
Defined.



(** X4. [readBigInt64] reads the same eight bytes as
    [readVariableLengthBigInt(8)] and fails with the same error; its value
    is the signed reading of the unsigned one: equal below [2^63], and
    [2^64] less from there on.  It always lies in the signed 64-bit
    range. *)
Theorem readBigInt64_signed (p : WPILogParser) :
  readBigInt64 p
  = match readVariableLengthBigInt 8 p with
    | Ok unsigned p' =>
        Ok (if unsigned <? 2 ^ 63 then unsigned else unsigned - 2 ^ 64) p'
    | Err e => Err e
    end
  /\ (forall val p', readBigInt64 p = Ok val p' -> - 2 ^ 63 <= val < 2 ^ 63).
Proof.
  assert (Heq : readBigInt64 p
                = match readVariableLengthBigInt 8 p with
                  | Ok unsigned p' =>
                      Ok (if unsigned <? 2 ^ 63 then unsigned else unsigned - 2 ^ 64) p'
                  | Err e => Err e
                  end).
  { rewrite readVariableLengthBigInt_checked by lia.
    unfold readBigInt64, read_view, getBigInt64, checked_read.
    destruct (reader p) as [dv|]; [|reflexivity].
    unfold view_bytes. change (Z.of_nat 8) with 8.
    destruct ((0 <=? cursor p) && (cursor p + 8 <=? byteLength dv)); reflexivity. }
  split; [exact Heq|].
  intros val p' H. rewrite Heq in H.
  rewrite readVariableLengthBigInt_checked in H by lia.
  unfold checked_read in H.
  destruct (reader p) as [dv|]; [|discriminate].
  destruct ((0 <=? cursor p) && (cursor p + 8 <=? byteLength dv)) eqn:E;
    [|discriminate].
  apply in_range_test in E. destruct E as [H0 H1].
  destruct (view_bytes_in_range dv (cursor p) 8 H0 ltac:(lia)) as [_ Hlen].
  pose proof (le_uint_range (firstn (Z.to_nat 8) (skipn (Z.to_nat (cursor p)) dv)))
    as Hrange.
  change (Z.to_nat 8) with 8%nat in *.
  rewrite Hlen in Hrange. change (256 ^ Z.of_nat 8) with (2 ^ 64) in Hrange.
  set (u := le_uint (firstn 8 (skipn (Z.to_nat (cursor p)) dv))) in *.
  destruct (Z.ltb_spec u (2 ^ 63)); injection H as <- _; lia.
Qed.

Lemma readBigInt64_signed_witness :
  readBigInt64
    (buffered ["255"; "255"; "255"; "255"; "255"; "255"; "255"; "255"]%byte 0)
  = Ok (-1) (buffered ["255"; "255"; "255"; "255"; "255"; "255"; "255"; "255"]%byte 8)
  /\ - 2 ^ 63 <= -1 < 2 ^ 63.
Proof.
  split; [reflexivity|].
  apply (readBigInt64_signed
           (buffered ["255"; "255"; "255"; "255"; "255"; "255"; "255"; "255"]%byte 0))
    with (p' := buffered ["255"; "255"; "255"; "255"; "255"; "255"; "255"; "255"]%byte 8).
  reflexivity.
Defined.

(** ** The fill, chunk by chunk *)

(** X5. [readToBuffer(length)] with [length > 0] completes exactly when the
    source still has [length] chunks, however many bytes they hold: it then
    leaves the old buffer followed by those chunks in order, the reader over
    the new buffer, the cursor where it was and the source advanced by
    [length] chunks.  With fewer chunks it fails with the [TypeError].  With
    [length <= 0] it does nothing. *)
Theorem readToBuffer_exactly_chunks (length : Z) (p : WPILogParser) :
  (length <= 0 -> readToBuffer length p = Ok tt p)
  /\ (0 < length ->
      (Z.to_nat length <= List.length (stream p))%nat ->
      exists p',
        readToBuffer length p = Ok tt p'
        /\ buffer p' = buffer p ++ List.concat (firstn (Z.to_nat length) (stream p))
        /\ reader p' = Some (buffer p')
        /\ cursor p' = cursor p
        /\ stream p' = skipn (Z.to_nat length) (stream p)
        /\ header p' = header p /\ detached p' = detached p)
  /\ (0 < length ->
      (List.length (stream p) < Z.to_nat length)%nat ->
      readToBuffer length p = Err TypeError).
Proof.
  split; [|split].
  - intros H. unfold readToBuffer.
    replace (Z.to_nat length) with 0%nat by lia. reflexivity.
  - intros Hpos Hle. exists (pulled (Z.to_nat length) p).
    split; [|repeat split].
    unfold readToBuffer.
    destruct (Z.to_nat length) as [|n] eqn:Hn; [lia|].
    apply readToBuffer_loop_ok. lia.
  - intros Hpos Hlt. unfold readToBuffer.
    apply readToBuffer_loop_exhausted. exact Hlt.
Qed.

Lemma readToBuffer_exactly_chunks_witness :
  readToBuffer 0 (new_parser [["001"%byte]]) = Ok tt (new_parser [["001"%byte]])
  /\ (exists p',
        readToBuffer 2 (new_parser [["001"; "002"]; []; ["003"]]%byte) = Ok tt p'
        /\ buffer p' = ["001"; "002"]%byte
        /\ stream p' = [["003"%byte]])
  /\ readToBuffer 2 (new_parser [["001"; "002"; "003"]%byte]) = Err TypeError.
Proof.
  split; [|split].
  - apply (readToBuffer_exactly_chunks 0 (new_parser [["001"%byte]])). lia.
  - destruct (readToBuffer_exactly_chunks 2
                (new_parser [["001"; "002"]; []; ["003"]]%byte))
      as (_ & H & _).
    destruct (H ltac:(lia) ltac:(cbn; lia)) as (p' & Hok & Hb & _ & _ & Hs & _).
    exists p'. split; [exact Hok|]. split; [exact Hb|exact Hs].
  - apply (readToBuffer_exactly_chunks 2 (new_parser [["001"; "002"; "003"]%byte])).
    + lia.
    + cbn. lia.
Defined.

Lemma readToBuffer_loop_add (m n : nat) (p : WPILogParser) :
  readToBuffer_loop (m + n) p
  = bind (readToBuffer_loop m) (fun _ => readToBuffer_loop n) p.
Proof.
  revert p. induction m as [|m IH]; intros p.
  - reflexivity.
  - cbn [Nat.add readToBuffer_loop]. unfold bind.
    destruct (readToBuffer_body p) as [[] p1|e]; [|reflexivity].
    rewrite IH. reflexivity.
Qed.

(** X6. Two fills in a row are one fill of the sum: [readToBuffer(a)]
    followed by [readToBuffer(b)] leaves the same parser, or fails the same
    way, as [readToBuffer(a + b)]. *)
Theorem readToBuffer_compose (a b : Z) (p : WPILogParser) :
  0 <= a -> 0 <= b ->
  bind (readToBuffer a) (fun _ => readToBuffer b) p = readToBuffer (a + b) p.
Proof.
  intros Ha Hb. unfold readToBuffer.
  rewrite Z2Nat.inj_add by lia.
  symmetry. apply readToBuffer_loop_add.
Qed.

Lemma readToBuffer_compose_witness :
  bind (readToBuffer 1) (fun _ => readToBuffer 2)
       (new_parser (bytewise ["001"; "002"; "003"; "004"]%byte))
  = readToBuffer 3 (new_parser (bytewise ["001"; "002"; "003"; "004"]%byte)).
Proof.
  apply (readToBuffer_compose 1 2); lia.
Defined.

(** ** Compaction and raw reads *)

Lemma byteLength_skipn (a : Uint8Array) (n : nat) :
  byteLength (skipn n a) = Z.max 0 (byteLength a - Z.of_nat n).
Proof.
  unfold byteLength. rewrite length_skipn. lia.
Qed.

(** The buffer that [sliceBuffer] installs is the old one without its first
    [length] bytes. *)
Lemma sliceBuffer_new_buffer (length : Z) (a : Uint8Array) :
  0 < length ->
  (if byteLength a <=? length then [] else slice a length)
  = skipn (Z.to_nat length) a.
Proof.
  intros Hpos. destruct (Z.leb_spec (byteLength a) length) as [Hle|Hgt].
  - symmetry. apply skipn_all2. unfold byteLength in Hle. lia.
  - unfold slice, subarray, rel_index.
    replace (length <? 0) with false by (symmetry; apply Z.ltb_ge; lia).
    pose proof (byteLength_nonneg a).
    replace (byteLength a <? 0) with false by (symmetry; apply Z.ltb_ge; lia).
    rewrite (Z.min_l length) by lia. rewrite Z.min_id.
    apply firstn_all2. rewrite length_skipn. unfold byteLength in *. lia.
Qed.

Lemma sliceBuffer_positive (length : Z) (p : WPILogParser) :
  0 < length ->
  sliceBuffer length p
  = Ok tt (set_cursor 0 (set_buffer (skipn (Z.to_nat length) (buffer p)) p)).
Proof.
  intros Hpos. unfold sliceBuffer.
  replace (length <=? 0) with false by (symmetry; apply Z.leb_gt; lia).
  rewrite (sliceBuffer_new_buffer length (buffer p) Hpos). reflexivity.
Qed.

(** X7. [sliceBuffer(length)] with [length > 0] drops the first [length]
    bytes of the buffer (all of them when there are no more), puts the
    reader over what is left and resets the cursor to 0 whatever it was;
    with [length <= 0] it changes nothing, the cursor included.  Called with
    the cursor, as [parseHeader] does, it keeps exactly the unread bytes. *)
Theorem sliceBuffer_drops_prefix (length : Z) (p : WPILogParser) :
  (length <= 0 -> sliceBuffer length p = Ok tt p)
  /\ (0 < length ->
      exists p',
        sliceBuffer length p = Ok tt p'
        /\ buffer p' = skipn (Z.to_nat length) (buffer p)
        /\ byteLength (buffer p') = Z.max 0 (byteLength (buffer p) - length)
        /\ reader p' = Some (buffer p')
        /\ cursor p' = 0
        /\ stream p' = stream p
        /\ (length = cursor p -> cursor p <= byteLength (buffer p) ->
            unread p' = unread p)).
Proof.
  split.
  - intros H. unfold sliceBuffer.
    replace (length <=? 0) with true by (symmetry; apply Z.leb_le; lia).
    reflexivity.
  - intros Hpos. eexists. split; [apply (sliceBuffer_positive length p Hpos)|].
    cbn [buffer reader cursor stream set_cursor set_buffer].
    repeat split.
    + rewrite byteLength_skipn. lia.
    + intros -> Hc. unfold unread.
      cbn [buffer cursor set_cursor set_buffer].
      rewrite byteLength_skipn. lia.
Qed.

Lemma sliceBuffer_drops_prefix_witness :
  sliceBuffer 0 (buffered ["001"; "002"; "003"]%byte 0)
  = Ok tt (buffered ["001"; "002"; "003"]%byte 0)
  /\ (exists p',
        sliceBuffer 2 (buffered ["001"; "002"; "003"]%byte 2) = Ok tt p'
        /\ buffer p' = ["003"%byte] /\ cursor p' = 0 /\ unread p' = 1).
Proof.
  split.
  - apply (sliceBuffer_drops_prefix 0 (buffered ["001"; "002"; "003"]%byte 0)). lia.
  - destruct (sliceBuffer_drops_prefix 2 (buffered ["001"; "002"; "003"]%byte 2))
      as (_ & H).
    destruct (H ltac:(lia)) as (p' & Hok & Hb & _ & _ & Hc & _ & Hu).
    exists p'. split; [exact Hok|]. split; [exact Hb|]. split; [exact Hc|].
    apply Hu; [reflexivity | cbn; lia].
Defined.

Lemma subarray_of_skipn (a : Uint8Array) (c n : Z) :
  0 <= c -> 0 <= n ->
  subarray (skipn (Z.to_nat c) a) 0 n = subarray a c (c + n).
Proof.
  intros Hc Hn. unfold subarray, rel_index.
  rewrite byteLength_skipn, Z2Nat.id by lia.
  pose proof (byteLength_nonneg a) as Hlen.
  replace (0 <? 0) with false by reflexivity.
  replace (n <? 0) with false by (symmetry; apply Z.ltb_ge; lia).
  replace (c <? 0) with false by (symmetry; apply Z.ltb_ge; lia).
  replace (c + n <? 0) with false by (symmetry; apply Z.ltb_ge; lia).
  rewrite (Z.min_l 0) by lia. cbn [Z.to_nat skipn]. rewrite Z.sub_0_r.
  destruct (Z.le_gt_cases c (byteLength a)) as [Hle|Hgt].
  - rewrite (Z.min_l c) by lia. f_equal. lia.
  - rewrite (skipn_all2 a) by (unfold byteLength in Hgt; lia).
    rewrite firstn_nil.
    rewrite (skipn_all2 a) by (unfold byteLength in *; lia).
    rewrite firstn_nil. reflexivity.
Qed.



Lemma firstn_add_skipn {A : Type} (m k : nat) (l : list A) :
  firstn m l ++ firstn k (skipn m l) = firstn (m + k) l.
Proof.
  revert l. induction m as [|m IH]; intros l.
  - reflexivity.
  - destruct l as [|x l]; cbn [firstn skipn Nat.add app].
    + rewrite firstn_nil. reflexivity.
    + f_equal. apply IH.
Qed.

(** Consecutive windows of an array join into the window that spans them. *)
Lemma subarray_join (a : Uint8Array) (x y z : Z) :
  0 <= x <= y -> y <= z ->
  subarray a x y ++ subarray a y z = subarray a x z.
Proof.
  intros Hxy Hyz. unfold subarray, rel_index.
  pose proof (byteLength_nonneg a) as Hlen.
  replace (x <? 0) with false by (symmetry; apply Z.ltb_ge; lia).
  replace (y <? 0) with false by (symmetry; apply Z.ltb_ge; lia).
  replace (z <? 0) with false by (symmetry; apply Z.ltb_ge; lia).
  set (x' := Z.min x (byteLength a)). set (y' := Z.min y (byteLength a)).
  set (z' := Z.min z (byteLength a)).
  assert (0 <= x' <= y' /\ y' <= z') by (unfold x', y', z'; lia).
  replace (skipn (Z.to_nat y') a)
    with (skipn (Z.to_nat (y' - x')) (skipn (Z.to_nat x') a))
    by (rewrite skipn_skipn; f_equal; lia).
  rewrite !Z.max_l by lia.
  rewrite firstn_add_skipn. f_equal. lia.
Qed.

(** X9. [readBytes] neither loses nor repeats a byte: with the cursor not
    negative, reading [a] bytes and then [b] bytes returns two views whose
    concatenation is the view of one [readBytes(a + b)], and leaves the
    parser in the same state; when the [a + b] bytes are in the buffer the
    two views have exactly [a] and [b] bytes. *)
Theorem readBytes_split (a b : Z) (p : WPILogParser) :
  0 <= cursor p -> 0 <= a -> 0 <= b ->
  exists va vb p',
    readBytes a p = Ok va (set_cursor (cursor p + a) p)
    /\ readBytes b (set_cursor (cursor p + a) p) = Ok vb p'
    /\ readBytes (a + b) p = Ok (va ++ vb) p'
    /\ (cursor p + a + b <= byteLength (buffer p) ->
        byteLength va = a /\ byteLength vb = b).
Proof.
  intros Hc Ha Hb.
  exists (subarray (buffer p) (cursor p) (cursor p + a)).
  exists (subarray (buffer p) (cursor p + a) (cursor p + a + b)).
  exists (set_cursor (cursor p + a + b) p).
  split; [reflexivity|]. split; [reflexivity|]. split.
  - unfold readBytes. cbn [buffer cursor set_cursor].
    rewrite subarray_join by lia.
    rewrite Z.add_assoc. reflexivity.
  - intros Hin.
    rewrite <- (Z.add_0_l (cursor p + a)) at 1.
    unfold subarray, rel_index.
    replace (cursor p <? 0) with false by (symmetry; apply Z.ltb_ge; lia).
    replace (cursor p + a <? 0) with false by (symmetry; apply Z.ltb_ge; lia).
    replace (0 + (cursor p + a) <? 0) with false by (symmetry; apply Z.ltb_ge; lia).
    replace (cursor p + a + b <? 0) with false by (symmetry; apply Z.ltb_ge; lia).
    rewrite !Z.min_l by lia.
    unfold byteLength in *.
    rewrite !length_firstn, !length_skipn. lia.
Qed.

Lemma readBytes_split_witness :
  exists va vb p',
    readBytes 1 (buffered ["001"; "002"; "003"; "004"]%byte 1)
    = Ok va (buffered ["001"; "002"; "003"; "004"]%byte 2)
    /\ readBytes 2 (buffered ["001"; "002"; "003"; "004"]%byte 2) = Ok vb p'
    /\ readBytes 3 (buffered ["001"; "002"; "003"; "004"]%byte 1) = Ok (va ++ vb) p'
    /\ byteLength va = 1 /\ byteLength vb = 2.
Proof.
  destruct (readBytes_split 1 2 (buffered ["001"; "002"; "003"; "004"]%byte 1))
    as (va & vb & p' & H1 & H2 & H3 & H4); [cbn; lia | lia | lia |].
  exists va, vb, p'.
  split; [exact H1|]. split; [exact H2|]. split; [exact H3|].
  apply H4. cbn. lia.
Defined.

(** ** Version numbers above sixteen bits *)

(** X10. [parseVersion] throws its [Invalid version] error exactly from
    [2^16] on: for [2^16 <= bytes < 2^31] the major part [bytes >> 8] is
    above 0xff and the error carries [bytes]. *)
Theorem parseVersion_invalid (bytes : Z) (p : WPILogParser) :
  2 ^ 16 <= bytes < 2 ^ 31 ->
  parseVersion bytes p = Err (InvalidVersion bytes).
Proof.
  intros Hb. unfold parseVersion.
  rewrite (shr_div bytes 8) by lia.
  assert (256 <= bytes / 2 ^ 8) by (apply Z.div_le_lower_bound; lia).
  replace (255 <? bytes / 2 ^ 8) with true by (symmetry; apply Z.ltb_lt; lia).
  reflexivity.
Qed.

Lemma parseVersion_invalid_witness :
  parseVersion 65536 (new_parser []) = Err (InvalidVersion 65536)
  /\ message (InvalidVersion 65536) = Some "Invalid version: 65536"%string.
Proof.
  split; [|reflexivity].
  apply (parseVersion_invalid 65536 (new_parser [])). lia.
Defined.

(** ** The header, path by path *)


Lemma checked_read_range (w val : Z) (p p' : WPILogParser) :
  0 <= w ->
  checked_read w p = Ok val p' ->
  0 <= val < 256 ^ w /\ p' = set_cursor (cursor p + w) p.
Proof.
  intros Hw. unfold checked_read.
  destruct (reader p) as [dv|]; [|discriminate].
  destruct ((0 <=? cursor p) && (cursor p + w <=? byteLength dv)) eqn:E;
    [|discriminate].
  apply in_range_test in E. destruct E as [H0 H1].
  intros H. injection H as <- <-. split; [|reflexivity].
  destruct (view_bytes_in_range dv (cursor p) (Z.to_nat w) H0 ltac:(lia)) as [_ Hlen].
  pose proof (le_uint_range (firstn (Z.to_nat w) (skipn (Z.to_nat (cursor p)) dv)))
    as Hrange.
  rewrite Hlen, Z2Nat.id in Hrange by lia. exact Hrange.
Qed.




Lemma skipn_past_prefix (pre mid post : list byte) :
  skipn (Z.to_nat (byteLength pre + byteLength mid)) (pre ++ mid ++ post) = post.
Proof.
  unfold byteLength. rewrite <- Nat2Z.inj_add, Nat2Z.id.
  rewrite app_assoc, skipn_app, length_app.
  rewrite skipn_all2 by (rewrite length_app; lia).
  rewrite Nat.sub_diag. reflexivity.
Qed.

(** X12. A header without extra part: once the fill has completed and the
    twelve bytes at the cursor are the magic, version 0x0100 and extra
    length 0, [parseHeader] returns the header with that version and the
    empty string, and compacts: the buffer is exactly the bytes that follow
    the header and the cursor is 0, at the first record. *)
Theorem parseHeader_plain
    (td : option (Uint8Array -> string)) (p p1 : WPILogParser)
    (pre post : list byte) :
  readToBuffer 12 p = Ok tt p1 ->
  buffer p1 = pre ++ plain_header ++ post ->
  cursor p1 = byteLength pre ->
  parseHeader td p
  = Ok (mkHeader 256 EmptyString) (set_cursor 0 (set_buffer post p1)).
Proof.
  intros Hfill Hb Hc.
  destruct (readToBuffer_ok_inv 12 p p1 ltac:(lia) Hfill) as (_ & Hp1).
  assert (Hr : reader p1 = Some (buffer p1)) by (rewrite Hp1; apply pulled_fields).
  unfold parseHeader. cbv zeta. change (6 + 2 + 4) with 12.
  unfold bind at 1. rewrite Hfill.
  unfold bind at 1. unfold readBytes at 1. cbn [buffer cursor set_cursor].
  rewrite Hb, Hc.
  change plain_header
    with (WPILOG_magic ++ ["000"; "001"]%byte ++ ["000"; "000"; "000"; "000"]%byte).
  rewrite <- !app_assoc.
  change 6 with (byteLength WPILOG_magic) at 1.
  rewrite subarray_at.
  rewrite (proj2 (fromCharCode_magic WPILOG_magic) eq_refl). cbn [negb].
  unfold bind at 1.
  rewrite (readU16_at _ (pre ++ WPILOG_magic)
             (["000"; "000"; "000"; "000"]%byte ++ post) "000"%byte "001"%byte).
  2:{ rewrite reader_set_cursor, Hr, Hb.
      change plain_header
        with (WPILOG_magic ++ ["000"; "001"]%byte ++ ["000"; "000"; "000"; "000"]%byte).
      rewrite <- !app_assoc. reflexivity. }
  2:{ rewrite cursor_set_cursor, byteLength_app. reflexivity. }
  change (negb (le_uint ["000"; "001"]%byte =? 256)) with false. cbv iota.
  unfold bind at 1. rewrite cursor_set_cursor, set_cursor_twice.
  rewrite (readU32_at _ (pre ++ WPILOG_magic ++ ["000"; "001"]%byte) post
             "000"%byte "000"%byte "000"%byte "000"%byte).
  2:{ rewrite reader_set_cursor, Hr, Hb.
      change plain_header
        with (WPILOG_magic ++ ["000"; "001"]%byte ++ ["000"; "000"; "000"; "000"]%byte).
      rewrite <- !app_assoc. reflexivity. }
  2:{ rewrite cursor_set_cursor, !byteLength_app. unfold byteLength. cbn. lia. }
  change (0 <? le_uint ["000"; "000"; "000"; "000"]%byte) with false. cbv iota.
  unfold bind, get, ret. rewrite cursor_set_cursor, set_cursor_twice.
  pose proof (byteLength_nonneg pre).
  rewrite sliceBuffer_positive
    by (cbn [cursor set_cursor]; change (byteLength WPILOG_magic) with 6; lia).
  cbn [cursor buffer set_cursor set_buffer]. rewrite Hb.
  replace (byteLength pre + 6 + 2 + 4)
    with (byteLength pre + byteLength plain_header)
    by (change (byteLength plain_header) with 12; lia).
  rewrite skipn_past_prefix.
  unfold set_cursor, set_buffer. cbn [stream buffer reader cursor header detached].
  reflexivity.
Qed.

Lemma parseHeader_plain_witness :
  parseHeader None (new_parser (bytewise plain_header))
  = Ok (mkHeader 256 EmptyString) (buffered [] 0).
Proof.
  apply (parseHeader_plain None (new_parser (bytewise plain_header))
           (pulled 12 (new_parser (bytewise plain_header))) [] []).
  - reflexivity.
  - reflexivity.
  - reflexivity.
Defined.

(** X13. A header with an extra part of [n > 0] bytes: after the fixed
    header [parseHeader] fills again, [n] chunks, and returns the version
    with the text of the [n] bytes that follow the fixed header (fewer if
    the buffer ends before), decoded by [td] or, without a decoder, one
    character per byte, which loses no byte.  On this path the buffer is
    not compacted: it keeps the header bytes and the cursor stands behind
    the extra part. *)
Theorem parseHeader_with_extra
    (td : option (Uint8Array -> string)) (p p1 p2 : WPILogParser)
    (pre post : list byte) (l0 l1 l2 l3 : byte) :
  readToBuffer 12 p = Ok tt p1 ->
  buffer p1 = pre ++ WPILOG_magic ++ ["000"; "001"]%byte ++ [l0; l1; l2; l3] ++ post ->
  cursor p1 = byteLength pre ->
  0 < le_uint [l0; l1; l2; l3] ->
  readToBuffer (le_uint [l0; l1; l2; l3]) (set_cursor (byteLength pre + 12) p1)
  = Ok tt p2 ->
  let n := le_uint [l0; l1; l2; l3] in
  let extraBytes :=
    subarray (buffer p2) (byteLength pre + 12) (byteLength pre + 12 + n) in
  parseHeader td p
  = Ok (mkHeader 256 match td with
                     | Some decode => decode extraBytes
                     | None => fromCharCode extraBytes
                     end)
       (set_cursor (byteLength pre + 12 + n) p2)
  /\ list_byte_of_string (fromCharCode extraBytes) = extraBytes
  /\ buffer p2 = buffer p1 ++ List.concat (firstn (Z.to_nat n) (stream p1)).
Proof.
  intros Hfill Hb Hc Hn Hfill2 n extraBytes.
  destruct (readToBuffer_ok_inv 12 p p1 ltac:(lia) Hfill) as (_ & Hp1).
  assert (Hr : reader p1 = Some (buffer p1)) by (rewrite Hp1; apply pulled_fields).
  split; [|split].
  - unfold parseHeader. cbv zeta. change (6 + 2 + 4) with 12.
    unfold bind at 1. rewrite Hfill.
    unfold bind at 1. unfold readBytes at 1. cbn [buffer cursor set_cursor].
    rewrite Hb, Hc.
    change 6 with (byteLength WPILOG_magic) at 1.
    rewrite subarray_at.
    rewrite (proj2 (fromCharCode_magic WPILOG_magic) eq_refl). cbn [negb].
    unfold bind at 1.
    rewrite (readU16_at _ (pre ++ WPILOG_magic) ([l0; l1; l2; l3] ++ post)
               "000"%byte "001"%byte).
    2:{ rewrite reader_set_cursor, Hr, Hb, <- !app_assoc. reflexivity. }
    2:{ rewrite cursor_set_cursor, byteLength_app. reflexivity. }
    change (negb (le_uint ["000"; "001"]%byte =? 256)) with false. cbv iota.
    unfold bind at 1. rewrite cursor_set_cursor, set_cursor_twice.
    rewrite (readU32_at _ (pre ++ WPILOG_magic ++ ["000"; "001"]%byte) post
               l0 l1 l2 l3).
    2:{ rewrite reader_set_cursor, Hr, Hb, <- !app_assoc. reflexivity. }
    2:{ rewrite cursor_set_cursor, !byteLength_app. unfold byteLength. cbn. lia. }
    fold n.
    replace (0 <? n) with true by (symmetry; apply Z.ltb_lt; exact Hn).
    rewrite cursor_set_cursor, set_cursor_twice.
    replace (byteLength pre + 6 + 2 + 4) with (byteLength pre + 12) by lia.
    unfold bind at 1. fold n in Hfill2. rewrite Hfill2.
    unfold bind, readBytes, ret.
    destruct (readToBuffer_ok_inv n _ p2 Hn Hfill2) as (_ & Hp2).
    assert (Hc2 : cursor p2 = byteLength pre + 12).
    { rewrite Hp2. reflexivity. }
    cbn [buffer cursor set_cursor]. rewrite Hc2. reflexivity.
  - unfold fromCharCode. apply list_byte_of_string_of_list_byte.
  - destruct (readToBuffer_ok_inv n _ p2 Hn Hfill2) as (_ & Hp2).
    rewrite Hp2. reflexivity.
Qed.

Lemma parseHeader_with_extra_witness :
  parseHeader None
    (new_parser (bytewise (WPILOG_magic
                           ++ ["000"; "001"; "002"; "000"; "000"; "000"; "065"; "066"]%byte)))
  = Ok (mkHeader 256 "AB")
       (buffered (WPILOG_magic
                  ++ ["000"; "001"; "002"; "000"; "000"; "000"; "065"; "066"]%byte) 14).
Proof.
  assert (H1 : readToBuffer 12
                 (new_parser (bytewise (WPILOG_magic
                    ++ ["000"; "001"; "002"; "000"; "000"; "000"; "065"; "066"]%byte)))
               = Ok tt (set_stream (bytewise ["065"; "066"]%byte)
                          (buffered (WPILOG_magic
                             ++ ["000"; "001"; "002"; "000"; "000"; "000"]%byte) 0)))
    by (vm_compute; reflexivity).
  assert (H5 : readToBuffer (le_uint ["002"; "000"; "000"; "000"]%byte)
                 (set_cursor (byteLength [] + 12)
                    (set_stream (bytewise ["065"; "066"]%byte)
                       (buffered (WPILOG_magic
                          ++ ["000"; "001"; "002"; "000"; "000"; "000"]%byte) 0)))
               = Ok tt (buffered (WPILOG_magic
                          ++ ["000"; "001"; "002"; "000"; "000"; "000"; "065"; "066"]%byte) 12))
    by (vm_compute; reflexivity).
  destruct (parseHeader_with_extra None _ _ _ [] [] "002"%byte "000"%byte "000"%byte
              "000"%byte H1 eq_refl eq_refl eq_refl H5) as [H _].
  vm_compute in H |- *. exact H.
Defined.

(** X14. [parseAll] on a fresh parser: it completes only when the source
    has at least twelve chunks and starts with the magic, and then the
    parser holds a header whose version is 0x0100; when [parseHeader] fails,
    [parseAll] fails with the same error and no header is stored. *)
Theorem parseAll_fresh
    (td : option (Uint8Array -> string)) (chunks : list Uint8Array) :
  (forall p', parseAll td (new_parser chunks) = Ok tt p' ->
     (12 <= List.length chunks)%nat
     /\ firstn 6 (List.concat chunks) = WPILOG_magic
     /\ exists h, header p' = Some h /\ version h = 256
                  /\ exists p'', parseHeader td (new_parser chunks) = Ok h p'')
  /\ (forall e, parseHeader td (new_parser chunks) = Err e ->
        parseAll td (new_parser chunks) = Err e).
Proof.
  split.
  - intros p' H. unfold parseAll, bind in H.
    destruct (parseHeader td (new_parser chunks)) as [h p1|e] eqn:E; [|discriminate].
    unfold modify in H. injection H as <-.
    destruct (parseHeader_ok_inv td _ _ _ E) as (q & Hfill & _ & Hv).
    destruct (readToBuffer_ok_inv 12 _ q ltac:(lia) Hfill) as (Hlen & _).
    split; [exact Hlen|]. split.
    + apply (parseHeader_never_proceeds td chunks h p1 E).
    + exists h. split; [reflexivity|]. split; [exact Hv|].
      exists p1. reflexivity.
  - intros e H. unfold parseAll, bind. rewrite H. reflexivity.
Qed.

Lemma parseAll_fresh_witness :
  exists p',
    parseAll None (new_parser (bytewise plain_header)) = Ok tt p'
    /\ (12 <= List.length (bytewise plain_header))%nat
    /\ firstn 6 (List.concat (bytewise plain_header)) = WPILOG_magic
    /\ header p' = Some (mkHeader 256 EmptyString).
Proof.
  assert (Hrun : parseAll None (new_parser (bytewise plain_header))
                 = Ok tt (set_header (mkHeader 256 EmptyString) (buffered [] 0)))
    by (vm_compute; reflexivity).
  exists (set_header (mkHeader 256 EmptyString) (buffered [] 0)).
  split; [exact Hrun|].
  destruct (parseAll_fresh None (bytewise plain_header)) as [H _].
  destruct (H _ Hrun) as (Hlen & Hmagic & _).
  split; [exact Hlen|]. split; [exact Hmagic|]. reflexivity.
Defined.

(** ** Records *)

Lemma readHeaderFields_at
    (bitField0 : option byte) (be bs bt pre post : list byte) (p : WPILogParser) :
  byteLength be = entryIdLength bitField0 ->
  byteLength bs = payloadSizeLength bitField0 ->
  byteLength bt = timestampLength bitField0 ->
  1 <= entryIdLength bitField0 ->
  1 <= payloadSizeLength bitField0 ->
  reader p = Some (pre ++ be ++ bs ++ bt ++ post) ->
  cursor p = byteLength pre ->
  readHeaderFields bitField0 p
  = Ok (le_uint be, le_uint bs, le_uint bt)
       (set_cursor (cursor p + (byteLength be + byteLength bs + byteLength bt)) p).
Proof.
  intros Hbe Hbs Hbt He Hs Hr Hc.
  pose proof (width_selectors_range bitField0) as (Re & Rs & Rt).
  unfold readHeaderFields, bind.
  rewrite (readVariableLength_at (entryIdLength bitField0)
             be pre (bs ++ bt ++ post) p); try assumption; [|lia].
  rewrite (readVariableLength_at (payloadSizeLength bitField0)
             bs (pre ++ be) (bt ++ post)
             (set_cursor (cursor p + entryIdLength bitField0) p));
    try assumption.
  2:{ lia. }
  2:{ rewrite reader_set_cursor, Hr, <- app_assoc. reflexivity. }
  2:{ rewrite cursor_set_cursor, Hc, byteLength_app, Hbe. reflexivity. }
  rewrite cursor_set_cursor, set_cursor_twice.
  rewrite <- Hbt.
  rewrite (readVariableLengthBigInt_at _ (pre ++ be ++ bs) bt post).
  - unfold ret. rewrite cursor_set_cursor, set_cursor_twice.
    f_equal. f_equal. lia.
  - rewrite reader_set_cursor, Hr. f_equal. rewrite <- !app_assoc. reflexivity.
  - rewrite cursor_set_cursor, Hc, !byteLength_app, Hbe, Hbs. lia.
Qed.

Lemma subarray_from_start (a : Uint8Array) (n : Z) :
  0 <= n -> subarray a 0 n = firstn (Z.to_nat n) a.
Proof.
  intros Hn. unfold subarray, rel_index.
  pose proof (byteLength_nonneg a).
  replace (0 <? 0) with false by reflexivity.
  replace (n <? 0) with false by (symmetry; apply Z.ltb_ge; lia).
  rewrite (Z.min_l 0) by lia. cbn [Z.to_nat skipn]. rewrite Z.sub_0_r.
  destruct (Z.le_gt_cases n (byteLength a)).
  - rewrite Z.min_l, Z.max_l by lia. reflexivity.
  - rewrite Z.min_r, Z.max_l by lia. unfold byteLength in *.
    rewrite Nat2Z.id, firstn_all. symmetry. apply firstn_all2. lia.
Qed.

(** X15. A record in the buffer, as [parseRecord] reads it: the bit field
    [b], one byte that is skipped, then the entry id, the payload size and
    the timestamp in as many bytes as the selectors of [b] say, then the
    payload.  [parseRecord] takes the three fields as little-endian numbers
    and the payload as the next [payloadSize] bytes, or as all the bytes
    left when fewer are buffered: a short payload is no error, and the
    cursor moves by the full size all the same.  The buffer is untouched. *)
Theorem parseRecord_frame_reads
    (p : WPILogParser) (pre be bs bt rest : list byte) (b x : byte) :
  reader p = Some (buffer p) ->
  buffer p = pre ++ [b; x] ++ be ++ bs ++ bt ++ rest ->
  cursor p = byteLength pre ->
  byteLength be = entryIdLength (Some b) ->
  byteLength bs = payloadSizeLength (Some b) ->
  byteLength bt = timestampLength (Some b) ->
  1 <= entryIdLength (Some b) ->
  1 <= payloadSizeLength (Some b) ->
  exists p',
    parseRecord_frame p
    = Ok (mkFrame [b] (le_uint be) (le_uint bs) (le_uint bt)
            (firstn (Z.to_nat (le_uint bs)) rest)) p'
    /\ parseRecord p = Ok tt p'
    /\ cursor p' = cursor p + 2 + byteLength be + byteLength bs + byteLength bt
                   + le_uint bs
    /\ buffer p' = buffer p.
Proof.
  intros Hr Hb Hc Hbe Hbs Hbt He Hs.
  destruct (parseRecord_frame_header p) as (q & Hqb & Hqr & Hqc & Hdef).
  assert (Hbit : subarray (buffer p) (cursor p) (cursor p + 1) = [b]).
  { rewrite Hb, Hc.
    change (pre ++ [b; x] ++ be ++ bs ++ bt ++ rest)
      with (pre ++ [b] ++ (x :: be ++ bs ++ bt ++ rest)).
    change 1 with (byteLength [b]). apply subarray_at. }
  assert (Hfirst : first_bitField p = Some b).
  { unfold first_bitField. rewrite Hbit. reflexivity. }
  assert (Hfields : readHeaderFields (Some b) q
                    = Ok (le_uint be, le_uint bs, le_uint bt)
                         (set_cursor (cursor q + (byteLength be + byteLength bs
                                                  + byteLength bt)) q)).
  { apply (readHeaderFields_at (Some b) be bs bt (pre ++ [b; x]) rest q);
      try assumption.
    - rewrite Hqr, Hr, Hb, <- app_assoc. reflexivity.
    - rewrite Hqc, Hc, byteLength_app. reflexivity. }
  pose proof (le_uint_range bs) as Hsz.
  assert (Hframe : exists p',
             parseRecord_frame p
             = Ok (mkFrame [b] (le_uint be) (le_uint bs) (le_uint bt)
                     (firstn (Z.to_nat (le_uint bs)) rest)) p'
             /\ cursor p' = cursor p + 2 + byteLength be + byteLength bs
                            + byteLength bt + le_uint bs
             /\ buffer p' = buffer p).
  { rewrite Hdef, Hfirst. unfold bind at 1. rewrite Hfields.
    unfold bind, readToBuffer_detached, readBytes, ret.
    assert (Hview : subarray (buffer q)
                      (cursor q + (byteLength be + byteLength bs + byteLength bt))
                      (cursor q + (byteLength be + byteLength bs + byteLength bt)
                       + le_uint bs)
                    = firstn (Z.to_nat (le_uint bs)) rest).
    { rewrite Hqb, Hb, Hqc, Hc.
      pose proof (byteLength_nonneg pre). pose proof (byteLength_nonneg be).
      pose proof (byteLength_nonneg bs). pose proof (byteLength_nonneg bt).
      rewrite <- subarray_of_skipn by lia.
      replace (byteLength pre + 2 + (byteLength be + byteLength bs + byteLength bt))
        with (byteLength (pre ++ [b; x] ++ be ++ bs ++ bt) + byteLength (@nil byte))
        by (rewrite !byteLength_app; unfold byteLength; cbn [List.length]; lia).
      replace (pre ++ [b; x] ++ be ++ bs ++ bt ++ rest)
        with ((pre ++ [b; x] ++ be ++ bs ++ bt) ++ [] ++ rest)
        by (rewrite <- !app_assoc; reflexivity).
      rewrite skipn_past_prefix.
      apply subarray_from_start. lia. }
    destruct (0 <? le_uint bs);
      cbn [buffer cursor set_cursor add_detached set_stream];
      rewrite Hview, Hbit; eexists; (split; [reflexivity|]);
      cbn [buffer cursor set_cursor add_detached set_stream];
      (split; [lia | exact Hqb]). }
  destruct Hframe as (p' & Hf & Hcur & Hbuf).
  exists p'. split; [exact Hf|]. split; [|split; assumption].
  unfold parseRecord, bind. rewrite Hf.
  cbn [entryId payloadBytes timestamp]. unfold parseControlRecord, ret.
  destruct (le_uint be =? 0); reflexivity.
Qed.

Lemma parseRecord_frame_reads_witness :
  exists p',
    parseRecord_frame
      (buffered ["021"; "000"; "009"; "004"; "007"; "170"; "187"]%byte 0)
    = Ok (mkFrame ["021"%byte] 9 4 7 ["170"; "187"]%byte) p'
    /\ cursor p' = 9
    /\ buffer p' = ["021"; "000"; "009"; "004"; "007"; "170"; "187"]%byte.
Proof.
  destruct (parseRecord_frame_reads
              (buffered ["021"; "000"; "009"; "004"; "007"; "170"; "187"]%byte 0)
              [] ["009"%byte] ["004"%byte] ["007"%byte] ["170"; "187"]%byte
              "021"%byte "000"%byte)
    as (p' & Hf & _ & Hc & Hb);
    try reflexivity; try (vm_compute; discriminate).
  exists p'. split; [exact Hf|]. split; [exact Hc | exact Hb].
Defined.

(** Reads see the parser only through its reader and its cursor. *)
Lemma checked_read_same_view (w : Z) (q q' : WPILogParser) :
  reader q = reader q' -> cursor q = cursor q' ->
  checked_read w q'
  = match checked_read w q with
    | Ok v r => Ok v (set_cursor (cursor r) q')
    | Err e => Err e
    end.
Proof.
  intros Hr Hc. unfold checked_read. rewrite <- Hr, <- Hc.
  destruct (reader q) as [dv|]; [|reflexivity].
  destruct ((0 <=? cursor q) && (cursor q + w <=? byteLength dv)); reflexivity.
Qed.

Lemma readVariableLength_same_view (w : Z) (q q' : WPILogParser) :
  reader q = reader q' -> cursor q = cursor q' ->
  readVariableLength w q'
  = match readVariableLength w q with
    | Ok v r => Ok v (set_cursor (cursor r) q')
    | Err e => Err e
    end.
Proof.
  intros Hr Hc.
  destruct (Z.eq_dec w 1) as [H1|H1]; [|
  destruct (Z.eq_dec w 2) as [H2|H2]; [|
  destruct (Z.eq_dec w 3) as [H3|H3]; [|
  destruct (Z.eq_dec w 4) as [H4|H4]]]].
  5:{ rewrite !readVariableLength_default by assumption. reflexivity. }
  all: rewrite !(readVariableLength_checked w) by lia;
    apply checked_read_same_view; assumption.
Qed.

Lemma readVariableLengthBigInt_same_view (n : Z) (q q' : WPILogParser) :
  reader q = reader q' -> cursor q = cursor q' ->
  readVariableLengthBigInt n q'
  = match readVariableLengthBigInt n q with
    | Ok v r => Ok v (set_cursor (cursor r) q')
    | Err e => Err e
    end.
Proof.
  intros Hr Hc. destruct (Z.le_gt_cases 1 n) as [Hn|Hn].
  - rewrite !readVariableLengthBigInt_checked by lia.
    apply checked_read_same_view; assumption.
  - unfold readVariableLengthBigInt.
    replace (Z.to_nat n) with 0%nat by lia.
    cbn [readVariableLengthBigInt_loop]. unfold ret.
    rewrite Hc, set_cursor_same. reflexivity.
Qed.

Lemma readHeaderFields_same_view (bitField0 : option byte) (q q' : WPILogParser) :
  reader q = reader q' -> cursor q = cursor q' ->
  readHeaderFields bitField0 q'
  = match readHeaderFields bitField0 q with
    | Ok fields r => Ok fields (set_cursor (cursor r) q')
    | Err e => Err e
    end.
Proof.
  intros Hr Hc. unfold readHeaderFields, bind, ret.
  rewrite (readVariableLength_same_view _ q q' Hr Hc).
  destruct (readVariableLength (entryIdLength bitField0) q) as [eid r1|e] eqn:E1;
    [|reflexivity].
  pose proof (readVariableLength_ok _ _ _ _ E1) as [_ Hr1].
  rewrite (readVariableLength_same_view _ r1 (set_cursor (cursor r1) q')).
  2:{ rewrite Hr1. cbn [reader set_cursor]. exact Hr. }
  2:{ reflexivity. }
  destruct (readVariableLength (payloadSizeLength bitField0) r1) as [sz r2|e] eqn:E2;
    [|reflexivity].
  pose proof (readVariableLength_ok _ _ _ _ E2) as [_ Hr2].
  rewrite set_cursor_twice.
  rewrite (readVariableLengthBigInt_same_view _ r2 (set_cursor (cursor r2) q')).
  2:{ rewrite Hr2, Hr1. cbn [reader set_cursor]. exact Hr. }
  2:{ reflexivity. }
  destruct (readVariableLengthBigInt (timestampLength bitField0) r2) as [ts r3|e];
    [|reflexivity].
  rewrite set_cursor_twice. reflexivity.
Qed.

Lemma readVariableLength_error (w : Z) (p : WPILogParser) (e : error) :
  readVariableLength w p = Err e ->
  e = TypeError \/ e = RangeError
  \/ (e = InvalidVariableLength w /\ w <> 1 /\ w <> 2 /\ w <> 3 /\ w <> 4).
Proof.
  destruct (Z.eq_dec w 1) as [H1|H1]; [|
  destruct (Z.eq_dec w 2) as [H2|H2]; [|
  destruct (Z.eq_dec w 3) as [H3|H3]; [|
  destruct (Z.eq_dec w 4) as [H4|H4]]]].
  5:{ rewrite readVariableLength_default by assumption.
      intros H. injection H as <-. right; right. repeat split; assumption. }
  all: rewrite (readVariableLength_checked w) by lia; unfold checked_read;
    destruct (reader p) as [dv|];
    [ destruct (_ && _); [discriminate|]; intros H; injection H as <-; auto
    | intros H; injection H as <-; auto ].
Qed.

(** X16. [parseRecord] fails exactly when the three header fields cannot be
    decoded two bytes after the start of the record, and with the error of
    that decoding; the payload never makes it fail, however long it is said
    to be.  The error is the [TypeError] of a parser without reader, the
    [RangeError] of a field that reaches past the bytes buffered, or
    [Invalid variable length size: 0] for an entry-id or payload-size
    selector of 0. *)
Theorem parseRecord_fails_only_in_header (p : WPILogParser) (e : error) :
  (parseRecord p = Err e
   <-> readHeaderFields (first_bitField p) (set_cursor (cursor p + 2) p) = Err e)
  /\ (parseRecord p = Err e ->
      e = TypeError \/ e = RangeError \/ e = InvalidVariableLength 0).
Proof.
  destruct (parseRecord_frame_header p) as (q & Hqb & Hqr & Hqc & Hdef).
  assert (Hview : readHeaderFields (first_bitField p) (set_cursor (cursor p + 2) p)
                  = match readHeaderFields (first_bitField p) q with
                    | Ok fields r =>
                        Ok fields (set_cursor (cursor r) (set_cursor (cursor p + 2) p))
                    | Err e0 => Err e0
                    end).
  { apply readHeaderFields_same_view.
    - rewrite Hqr. reflexivity.
    - rewrite Hqc. reflexivity. }
  assert (Hiff : parseRecord p = Err e
                 <-> readHeaderFields (first_bitField p) q = Err e).
  { unfold parseRecord. unfold bind at 1. rewrite Hdef. unfold bind at 1.
    destruct (readHeaderFields (first_bitField p) q) as [[[eid sz] ts] r|e0].
    - unfold bind, readToBuffer_detached, readBytes, parseControlRecord, ret.
      split; [|discriminate].
      destruct (0 <? sz); cbn [entryId payloadBytes timestamp];
        destruct (eid =? 0); discriminate.
    - split; intros H; injection H as <-; reflexivity. }
  split.
  - rewrite Hiff, Hview.
    destruct (readHeaderFields (first_bitField p) q); [|reflexivity].
    split; discriminate.
  - intros H. apply Hiff in H.
    pose proof (width_selectors_range (first_bitField p)) as (Re & Rs & _).
    unfold readHeaderFields, bind, ret in H.
    destruct (readVariableLength (entryIdLength (first_bitField p)) q)
      as [eid r1|e1] eqn:E1.
    2:{ injection H as <-.
        destruct (readVariableLength_error _ _ _ E1) as [-> | [-> | [-> Hw]]]; auto.
        right; right. f_equal. lia. }
    destruct (readVariableLength (payloadSizeLength (first_bitField p)) r1)
      as [sz r2|e2] eqn:E2.
    2:{ injection H as <-.
        destruct (readVariableLength_error _ _ _ E2) as [-> | [-> | [-> Hw]]]; auto.
        right; right. f_equal. lia. }
    pose proof (readVariableLength_ok _ _ _ _ E1) as [_ Hr1].
    pose proof (readVariableLength_ok _ _ _ _ E2) as [_ Hr2].
    destruct (Z.le_gt_cases 1 (timestampLength (first_bitField p))) as [Ht|Ht].
    + rewrite readVariableLengthBigInt_checked in H by exact Ht.
      unfold checked_read in H.
      destruct (reader r2) as [dv|].
      * destruct (_ && _); [discriminate|]. injection H as <-. auto.
      * injection H as <-. auto.
    + unfold readVariableLengthBigInt in H.
      replace (Z.to_nat (timestampLength (first_bitField p))) with 0%nat in H by lia.
      discriminate.
Qed.

Lemma parseRecord_fails_only_in_header_witness :
  parseRecord (buffered ["021"; "000"; "009"; "004"]%byte 0) = Err RangeError
  /\ readHeaderFields (Some "021"%byte) (buffered ["021"; "000"; "009"; "004"]%byte 2)
     = Err RangeError.
Proof.
  assert (H : parseRecord (buffered ["021"; "000"; "009"; "004"]%byte 0)
              = Err RangeError) by reflexivity.
  split; [exact H|].
  apply (parseRecord_fails_only_in_header
           (buffered ["021"; "000"; "009"; "004"]%byte 0) RangeError).
  exact H.
Defined.

(** ** The reader follows the buffer *)

Lemma readToBuffer_loop_consistent (n : nat) :
  forall p p' : WPILogParser,
    view_consistent p -> readToBuffer_loop n p = Ok tt p' -> view_consistent p'.
Proof.
  induction n as [|n IH]; intros p p' Hp H.
  - cbn in H. unfold ret in H. injection H as <-. exact Hp.
  - cbn [readToBuffer_loop] in H. unfold bind in H.
    destruct (stream p) as [|chunk rest] eqn:Hs.
    + rewrite (readToBuffer_body_exhausted p Hs) in H. discriminate.
    + rewrite (readToBuffer_body_ok p chunk rest Hs) in H.
      apply IH in H; [exact H|]. right. reflexivity.
Qed.

Lemma sliceBuffer_consistent (length : Z) (p p' : WPILogParser) :
  view_consistent p -> sliceBuffer length p = Ok tt p' -> view_consistent p'.
Proof.
  intros Hp. unfold sliceBuffer. destruct (length <=? 0); intros H; injection H as <-.
  - exact Hp.
  - right. reflexivity.
Qed.

Lemma parseHeader_ok_reader
    (td : option (Uint8Array -> string)) (p p' : WPILogParser) (h : Header) :
  parseHeader td p = Ok h p' -> reader p' = Some (buffer p').
Proof.
  unfold parseHeader. cbv zeta. change (6 + 2 + 4) with 12.
  unfold bind at 1.
  destruct (readToBuffer 12 p) as [[] p1|e] eqn:Hfill; [|discriminate].
  destruct (readToBuffer_ok_inv 12 p p1 ltac:(lia) Hfill) as (_ & Hp1).
  assert (Hr : reader p1 = Some (buffer p1)) by (rewrite Hp1; apply pulled_fields).
  unfold bind at 1. unfold readBytes at 1. cbn [buffer cursor set_cursor].
  destruct (negb _); [discriminate|].
  unfold bind at 1.
  destruct (readU16 _) as [v q|e] eqn:E16; [|discriminate].
  apply read_view_ok in E16.
  destruct (negb (v =? 256)).
  { unfold bind, throw. destruct (parseVersion v q); discriminate. }
  unfold bind at 1.
  destruct (readU32 q) as [n q'|e] eqn:E32; [|discriminate].
  apply read_view_ok in E32.
  assert (Hq' : reader q' = Some (buffer q')).
  { rewrite E32, E16. cbn [reader buffer set_cursor]. exact Hr. }
  destruct (0 <? n) eqn:En.
  - unfold bind at 1.
    destruct (readToBuffer n q') as [[] q2|e] eqn:Efill; [|discriminate].
    apply Z.ltb_lt in En.
    destruct (readToBuffer_ok_inv n q' q2 En Efill) as (_ & Hq2).
    unfold bind, readBytes, ret. intros H. injection H as _ <-.
    cbn [reader buffer set_cursor]. rewrite Hq2. apply pulled_fields.
  - unfold bind, get, ret.
    destruct (sliceBuffer (cursor q') q') as [[] q2|e] eqn:Es; [|discriminate].
    intros H. injection H as _ <-.
    destruct (sliceBuffer_consistent _ _ _ (or_intror Hq') Es) as [Hnone|Hsome];
      [|exact Hsome].
    unfold sliceBuffer in Es.
    destruct (cursor q' <=? 0); injection Es as <-; [congruence|discriminate].
Qed.

Lemma subarray_in_range (a : Uint8Array) (c w : Z) :
  0 <= c -> 0 <= w ->
  subarray a c (c + w) = firstn (Z.to_nat w) (skipn (Z.to_nat c) a).
Proof.
  intros Hc Hw. rewrite <- subarray_of_skipn by lia.
  apply subarray_from_start. exact Hw.
Qed.

(** X17. The parser keeps its reader over its current buffer: this holds
    for a new parser (which has no reader yet), it is kept by
    [readToBuffer], [sliceBuffer], [parseRecord] and every pass of a
    suspended fill, and after [parseHeader] the reader is there and views
    the buffer.  So the two ways of reading agree: [readVariableLength(w)]
    decodes exactly the bytes that [readBytes(w)] returns, and both leave
    the parser in the same state. *)
Theorem reader_follows_buffer (td : option (Uint8Array -> string)) :
  (forall s, view_consistent (new_parser s))
  /\ (forall n p p',
        view_consistent p -> readToBuffer n p = Ok tt p' -> view_consistent p')
  /\ (forall n p p',
        view_consistent p -> sliceBuffer n p = Ok tt p' -> view_consistent p')
  /\ (forall p h p', parseHeader td p = Ok h p' -> reader p' = Some (buffer p'))
  /\ (forall p p',
        view_consistent p -> parseRecord p = Ok tt p' -> view_consistent p')
  /\ (forall p p',
        view_consistent p -> detached_step p p' -> view_consistent p')
  /\ (forall p w,
        reader p = Some (buffer p) ->
        w = 1 \/ w = 2 \/ w = 3 \/ w = 4 ->
        0 <= cursor p -> cursor p + w <= byteLength (buffer p) ->
        exists view p',
          readBytes w p = Ok view p'
          /\ byteLength view = w
          /\ readVariableLength w p = Ok (le_uint view) p').
Proof.
  split; [|split; [|split; [|split; [|split; [|split]]]]].
  - intros s. left. reflexivity.
  - intros n p p'. unfold readToBuffer. apply readToBuffer_loop_consistent.
  - intros n p p'. apply sliceBuffer_consistent.
  - intros p h p'. apply parseHeader_ok_reader.
  - intros p p' Hp H. unfold parseRecord, bind in H.
    destruct (parseRecord_frame p) as [f p1|] eqn:E; [|discriminate].
    apply parseRecord_frame_keeps_buffer in E. destruct E as [Hb Hr].
    unfold parseControlRecord, ret in H.
    assert (p' = p1) by (destruct (entryId f =? 0); injection H as <-; reflexivity).
    subst p'. unfold view_consistent in *. rewrite Hb, Hr. exact Hp.
  - intros p p' Hp [q q1 before after d next _ Hpass].
    unfold resume_pass in Hpass.
    destruct (requested d) as [chunk|]; [|discriminate].
    destruct (passes d + 1 <? wanted d); injection Hpass as _ <-;
      right; reflexivity.
  - intros p w Hr Hw H0 H1.
    exists (subarray (buffer p) (cursor p) (cursor p + w)).
    exists (set_cursor (cursor p + w) p).
    split; [reflexivity|].
    rewrite subarray_in_range by lia.
    split.
    + destruct (view_bytes_in_range (buffer p) (cursor p) (Z.to_nat w) H0 ltac:(lia))
        as [_ Hlen].
      unfold byteLength. rewrite Hlen. lia.
    + rewrite (readVariableLength_checked w p Hw).
      apply (checked_read_in_range w p (buffer p) Hr H0 H1).
Qed.

Lemma reader_follows_buffer_witness :
  exists view p',
    readBytes 2 (buffered ["001"; "002"; "003"]%byte 1) = Ok view p'
    /\ byteLength view = 2
    /\ readVariableLength 2 (buffered ["001"; "002"; "003"]%byte 1)
       = Ok (le_uint view) p'.
Proof.
  destruct (reader_follows_buffer None) as (_ & _ & _ & _ & _ & _ & H).
  apply (H (buffered ["001"; "002"; "003"]%byte 1) 2).
  - reflexivity.
  - right; left; reflexivity.
  - cbn. lia.
  - cbn. lia.
Defined.

(** ** What a record can hold *)

Lemma readVariableLength_bound (w val : Z) (p p' : WPILogParser) :
  readVariableLength w p = Ok val p' -> 0 <= val < 256 ^ w.
Proof.
  intros H. pose proof (readVariableLength_ok _ _ _ _ H) as [Hw _].
  rewrite (readVariableLength_checked w p) in H by lia.
  apply (checked_read_range w val p p' ltac:(lia) H).
Qed.

(** X18. The selectors of the bit field bound what [parseRecord] can
    decode: the entry id and the payload size come from at most 3 bytes and
    are below [2^24] (the four-byte case of [readVariableLength] is never
    reached from a record), and the timestamp comes from at most 7 bytes
    and is below [2^56]; none of them is negative. *)
Theorem parseRecord_frame_bounds (p p' : WPILogParser) (f : Frame) :
  parseRecord_frame p = Ok f p' ->
  1 <= entryIdLength (first_bitField p) <= 3
  /\ 1 <= payloadSizeLength (first_bitField p) <= 3
  /\ 0 <= timestampLength (first_bitField p) <= 7
  /\ 0 <= entryId f < 2 ^ 24
  /\ 0 <= payloadSize f < 2 ^ 24
  /\ 0 <= timestamp f < 2 ^ 56.
Proof.
  destruct (parseRecord_frame_header p) as (q & _ & _ & _ & ->).
  unfold bind at 1.
  destruct (readHeaderFields (first_bitField p) q) as [[[eid sz] ts] r|] eqn:E;
    [|discriminate].
  intros H.
  assert (Hf : entryId f = eid /\ payloadSize f = sz /\ timestamp f = ts).
  { unfold bind, readToBuffer_detached, readBytes, ret in H.
    destruct (0 <? sz); injection H as <- _; repeat split. }
  destruct Hf as (-> & -> & ->). clear H.
  pose proof (width_selectors_range (first_bitField p)) as (Re & Rs & Rt).
  unfold readHeaderFields, bind, ret in E.
  destruct (readVariableLength (entryIdLength (first_bitField p)) q)
    as [eid' r1|] eqn:E1; [|discriminate].
  destruct (readVariableLength (payloadSizeLength (first_bitField p)) r1)
    as [sz' r2|] eqn:E2; [|discriminate].
  destruct (readVariableLengthBigInt (timestampLength (first_bitField p)) r2)
    as [ts' r3|] eqn:E3; [|discriminate].
  injection E as <- <- <- _.
  pose proof (readVariableLength_ok _ _ _ _ E1) as [He _].
  pose proof (readVariableLength_ok _ _ _ _ E2) as [Hs _].
  pose proof (readVariableLength_bound _ _ _ _ E1) as Be.
  pose proof (readVariableLength_bound _ _ _ _ E2) as Bs.
  assert (Bt : 0 <= ts' < 256 ^ timestampLength (first_bitField p)).
  { destruct (Z.le_gt_cases 1 (timestampLength (first_bitField p))) as [Ht|Ht].
    - rewrite readVariableLengthBigInt_checked in E3 by exact Ht.
      apply (checked_read_range (timestampLength (first_bitField p)) _ _ _
               ltac:(lia) E3).
    - replace (timestampLength (first_bitField p)) with 0 in * by lia.
      cbn in E3. unfold ret in E3. injection E3 as <- _. cbn. lia. }
  assert (Hpow : forall w k, 0 <= w <= k -> 256 ^ w <= 256 ^ k)
    by (intros w k Hwk; apply Z.pow_le_mono_r; lia).
  pose proof (Hpow (entryIdLength (first_bitField p)) 3 ltac:(lia)).
  pose proof (Hpow (payloadSizeLength (first_bitField p)) 3 ltac:(lia)).
  pose proof (Hpow (timestampLength (first_bitField p)) 7 ltac:(lia)).
  change (256 ^ 3) with (2 ^ 24) in *. change (256 ^ 7) with (2 ^ 56) in *.
  repeat split; lia.
Qed.

Lemma parseRecord_frame_bounds_witness :
  exists f p',
    parseRecord_frame
      (buffered ["127"; "000"; "255"; "255"; "255"; "000"; "000"; "000";
                 "255"; "255"; "255"; "255"; "255"; "255"; "255"]%byte 0)
    = Ok f p'
    /\ entryId f = 2 ^ 24 - 1 /\ payloadSize f = 0 /\ timestamp f = 2 ^ 56 - 1
    /\ 0 <= entryId f < 2 ^ 24 /\ 0 <= timestamp f < 2 ^ 56.
Proof.
  assert (Hrun : parseRecord_frame
                   (buffered ["127"; "000"; "255"; "255"; "255"; "000"; "000"; "000";
                              "255"; "255"; "255"; "255"; "255"; "255"; "255"]%byte 0)
                 = Ok (mkFrame ["127"%byte] (2 ^ 24 - 1) 0 (2 ^ 56 - 1) [])
                      (set_detached [mkDetached 1 0 None; mkDetached 14 0 None]
                         (buffered ["127"; "000"; "255"; "255"; "255"; "000"; "000"; "000";
                                    "255"; "255"; "255"; "255"; "255"; "255"; "255"]%byte 15)))
    by (vm_compute; reflexivity).
  eexists. eexists. split; [exact Hrun|].
  destruct (parseRecord_frame_bounds _ _ _ Hrun) as (_ & _ & _ & He & _ & Ht).
  split; [reflexivity|]. split; [reflexivity|]. split; [reflexivity|].
  split; [exact He | exact Ht].
Defined.

(** ** What the header takes from the source *)




(** ** What a record takes from the source *)

Lemma parseRecord_frame_header_source (p : WPILogParser) :
  exists q,
    buffer q = buffer p
    /\ stream q = skipn 2 (stream p)
    /\ List.length (detached q) = (List.length (detached p) + 2)%nat
    /\ parseRecord_frame p
       = bind (readHeaderFields (first_bitField p))
           (fun fields =>
              let '(eid, sz, ts) := fields in
              readToBuffer_detached sz ;;;
              payload <- readBytes sz ;;
              ret (mkFrame (subarray (buffer p) (cursor p) (cursor p + 1))
                     eid sz ts payload)) q.
Proof.
  unfold parseRecord_frame, first_bitField.
  unfold bind at 1. unfold readToBuffer_detached at 1. cbn [Z.ltb Z.compare].
  unfold bind at 1. unfold readBytes at 1.
  cbn [buffer cursor set_cursor add_detached set_stream].
  unfold bind at 1. unfold readToBuffer_detached at 1.
  pose proof (width_selectors_range
                (index (subarray (buffer p) (cursor p) (cursor p + 1)) 0))
    as (Re & Rs & Rt).
  match goal with
  | |- context [if ?c then _ else _] =>
      replace c with true by (symmetry; apply Z.ltb_lt; lia)
  end.
  unfold bind at 1; unfold modify at 1.
  cbn [buffer cursor reader stream set_cursor add_detached set_stream].
  eexists. split; [|split; [|split; [|reflexivity]]];
    cbn [buffer stream detached set_cursor add_detached set_stream].
  - reflexivity.
  - destruct (stream p) as [|c0 [|c1 rest]]; reflexivity.
  - rewrite !length_app. cbn [List.length]. lia.
Qed.

(** X20. [parseRecord] awaits none of its fills, so it returns before any
    chunk it asked for has reached the buffer: it has asked the source for
    two chunks, and for a third exactly when the payload size is positive;
    those calls are left suspended, the source is that many chunks shorter,
    and the buffer is as it was. *)
Theorem parseRecord_suspended_fills (p p' : WPILogParser) (f : Frame) :
  parseRecord_frame p = Ok f p' ->
  exists k : nat,
    (k = 2%nat \/ k = 3%nat)
    /\ (k = 3%nat <-> 0 < payloadSize f)
    /\ List.length (detached p') = (List.length (detached p) + k)%nat
    /\ stream p' = skipn k (stream p)
    /\ buffer p' = buffer p.
Proof.
  destruct (parseRecord_frame_header_source p) as (q & Hb & Hs & Hd & ->).
  unfold bind at 1.
  destruct (readHeaderFields (first_bitField p) q) as [[[eid sz] ts] r|] eqn:E;
    [|discriminate].
  apply readHeaderFields_ok in E. subst r.
  unfold bind, readToBuffer_detached, readBytes, ret.
  destruct (Z.ltb_spec 0 sz) as [Hpos|Hzero]; intros H; injection H as <- <-;
    cbn [payloadSize buffer stream detached set_cursor add_detached set_stream].
  - exists 3%nat. split; [right; reflexivity|].
    split; [split; [intros _; exact Hpos | reflexivity]|].
    split; [rewrite length_app, Hd; cbn [List.length]; lia|].
    split; [|exact Hb].
    rewrite Hs. destruct (stream p) as [|c0 [|c1 [|c2 rest]]]; reflexivity.
  - exists 2%nat. split; [left; reflexivity|].
    split; [split; [discriminate | lia]|].
    split; [exact Hd|]. split; [exact Hs | exact Hb].
Qed.

Lemma parseRecord_suspended_fills_witness :
  exists k : nat,
    (k = 3%nat <-> 0 < 1)
    /\ skipn k (stream tag3_record)
       = bytewise ["003"; "004"; "005"; "006"; "007"]%byte.
Proof.
  assert (Hrun : exists p',
             parseRecord_frame tag3_record
             = Ok (mkFrame ["021"%byte] 0 1 7 ["003"%byte]) p'
             /\ stream p' = bytewise ["003"; "004"; "005"; "006"; "007"]%byte).
  { eexists. split; [vm_compute; reflexivity|]. reflexivity. }
  destruct Hrun as (p' & Hrun & Hstream).
  destruct (parseRecord_suspended_fills _ _ _ Hrun) as (k & _ & Hk & _ & Hs & _).
  exists k. split; [exact Hk|]. rewrite <- Hs. exact Hstream.
Defined.

(** ** The magic test, the fill and the buffer once more *)

(** X21. Once the fill of the fixed header has completed, the magic test of
    [parseHeader] is exact: if the six bytes at the cursor (fewer when the
    buffer is shorter) are not the magic, [parseHeader] fails with the magic
    error whose string holds precisely those bytes, one character per byte;
    if they are the magic, [parseHeader] raises no magic error, whatever
    follows. *)
Theorem magic_test_after_fill
    (td : option (Uint8Array -> string)) (p p1 : WPILogParser) :
  readToBuffer 12 p = Ok tt p1 ->
  (magic_found p1 <> WPILOG_magic ->
   parseHeader td p = Err (InvalidMagic (fromCharCode (magic_found p1)))
   /\ list_byte_of_string (fromCharCode (magic_found p1)) = magic_found p1)
  /\ (magic_found p1 = WPILOG_magic ->
      forall m, parseHeader td p <> Err (InvalidMagic m)).
Proof.
  intros Hfill. split.
  - intros Hne. split.
    + apply (parseHeader_magic_mismatch td p p1 Hfill Hne).
    + unfold fromCharCode. apply list_byte_of_string_of_list_byte.
  - intros Heq m. apply (parseHeader_magic_match td p p1 m Hfill Heq).
Qed.

Lemma magic_test_after_fill_witness :
  parseHeader None (new_parser (bytewise bad_magic_header))
  = Err (InvalidMagic "WPILOX")
  /\ parseHeader None (new_parser (bytewise (versioned_header "002" "000")))
     <> Err (InvalidMagic "WPILOG").
Proof.
  split.
  - assert (Hfill : readToBuffer 12 (new_parser (bytewise bad_magic_header))
                    = Ok tt (buffered bad_magic_header 0))
      by (vm_compute; reflexivity).
    destruct (magic_test_after_fill None _ _ Hfill) as [H _].
    destruct H as [H _]; [vm_compute; discriminate|].
    exact H.
  - assert (Hfill : readToBuffer 12
                      (new_parser (bytewise (versioned_header "002" "000")))
                    = Ok tt (buffered (versioned_header "002" "000") 0))
      by (vm_compute; reflexivity).
    destruct (magic_test_after_fill None _ _ Hfill) as [_ H].
    apply H. reflexivity.
Defined.

(** X22. From a source that never delivers an empty chunk, a completed
    [readToBuffer(length)] has added at least [length] bytes to the buffer,
    so that, with the cursor inside the buffer, at least [length] bytes are
    unread afterwards. *)
Theorem readToBuffer_adds_bytes (length : Z) (p p1 : WPILogParser) :
  0 < length ->
  Forall (fun chunk => chunk <> []) (stream p) ->
  readToBuffer length p = Ok tt p1 ->
  byteLength (buffer p) + length <= byteLength (buffer p1)
  /\ unread p + length <= unread p1
  /\ (cursor p <= byteLength (buffer p) -> length <= unread p1).
Proof.
  intros Hpos Hne H.
  destruct (readToBuffer_ok_inv length p p1 Hpos H) as (Hle & ->).
  unfold unread.
  destruct (pulled_fields (Z.to_nat length) p) as (_ & -> & -> & _).
  rewrite byteLength_app.
  assert (Hf : Forall (fun c => c <> []) (firstn (Z.to_nat length) (stream p))).
  { apply Forall_forall. intros c Hin.
    apply (proj1 (Forall_forall _ _) Hne).
    rewrite <- (firstn_skipn (Z.to_nat length) (stream p)).
    apply in_or_app. left. exact Hin. }
  pose proof (concat_nonempty_length _ Hf) as Hb.
  rewrite length_firstn in Hb. lia.
Qed.

Lemma readToBuffer_adds_bytes_witness :
  exists p1,
    readToBuffer 2 (new_parser [["001"; "002"; "003"]; ["004"]; ["005"]]%byte)
    = Ok tt p1
    /\ 2 <= unread p1.
Proof.
  assert (Hrun : readToBuffer 2
                   (new_parser [["001"; "002"; "003"]; ["004"]; ["005"]]%byte)
                 = Ok tt (set_stream [["005"%byte]]
                            (buffered ["001"; "002"; "003"; "004"]%byte 0)))
    by (vm_compute; reflexivity).
  assert (Hne : Forall (fun chunk : Uint8Array => chunk <> [])
                  (stream (new_parser [["001"; "002"; "003"]; ["004"]; ["005"]]%byte))).
  { cbn [stream new_parser]. repeat apply Forall_cons; try apply Forall_nil; discriminate. }
  eexists. split; [exact Hrun|].
  apply (readToBuffer_adds_bytes 2 _ _ ltac:(lia) Hne Hrun).
  cbn. lia.
Defined.

(** X23. [parseRecord] never gives a byte back: from a state with the
    cursor not negative, after it has returned and after any number of
    passes of the suspended fills, in any order, the buffer is at least as
    long as before the record and holds more bytes than are unread. *)
Theorem parseRecord_releases_nothing (p p1 p2 : WPILogParser) :
  0 <= cursor p ->
  parseRecord p = Ok tt p1 ->
  clos_refl_trans _ detached_step p1 p2 ->
  buffer p1 = buffer p
  /\ byteLength (buffer p) <= byteLength (buffer p2)
  /\ unread p2 < byteLength (buffer p2).
Proof.
  intros Hc Hrec Hsteps. split.
  - apply (parseRecord_keeps_buffer p p1 Hrec).
  - apply (parseRecord_never_compacts p p1 p2 Hc Hrec Hsteps).
Qed.

Lemma parseRecord_releases_nothing_witness :
  exists p1 p2,
    parseRecord tag3_record = Ok tt p1
    /\ detached_step p1 p2
    /\ byteLength (buffer tag3_record) <= byteLength (buffer p2)
    /\ unread p2 < byteLength (buffer p2).
Proof.
  assert (Hrun : parseRecord tag3_record
                 = Ok tt
                     {| stream := bytewise ["003"; "004"; "005"; "006"; "007"]%byte;
                        buffer := ["021"; "000"; "000"; "001"; "007"; "003"]%byte;
                        reader := Some ["021"; "000"; "000"; "001"; "007"; "003"]%byte;
                        cursor := 6; header := None;
                        detached := [mkDetached 1 0 (Some ["000"%byte]);
                                     mkDetached 4 0 (Some ["001"%byte]);
                                     mkDetached 1 0 (Some ["002"%byte])] |})
    by (vm_compute; reflexivity).
  eexists. eexists. split; [exact Hrun|].
  assert (Hstep : detached_step
            {| stream := bytewise ["003"; "004"; "005"; "006"; "007"]%byte;
               buffer := ["021"; "000"; "000"; "001"; "007"; "003"]%byte;
               reader := Some ["021"; "000"; "000"; "001"; "007"; "003"]%byte;
               cursor := 6; header := None;
               detached := [mkDetached 1 0 (Some ["000"%byte]);
                            mkDetached 4 0 (Some ["001"%byte]);
                            mkDetached 1 0 (Some ["002"%byte])] |}
            (set_detached
               ([mkDetached 1 0 (Some ["000"%byte])]
                ++ mkDetached 4 1 (Some ["003"%byte])
                   :: [mkDetached 1 0 (Some ["002"%byte])])
               {| stream := bytewise ["004"; "005"; "006"; "007"]%byte;
                  buffer := ["021"; "000"; "000"; "001"; "007"; "003"; "001"]%byte;
                  reader := Some ["021"; "000"; "000"; "001"; "007"; "003"; "001"]%byte;
                  cursor := 6; header := None;
                  detached := [mkDetached 1 0 (Some ["000"%byte]);
                               mkDetached 4 0 (Some ["001"%byte]);
                               mkDetached 1 0 (Some ["002"%byte])] |})).
  { apply (detached_pass _ _ [mkDetached 1 0 (Some ["000"%byte])]
             [mkDetached 1 0 (Some ["002"%byte])]
             (mkDetached 4 0 (Some ["001"%byte]))
             (Some (mkDetached 4 1 (Some ["003"%byte])))).
    - reflexivity.
    - reflexivity. }
  split; [exact Hstep|].
  apply (parseRecord_releases_nothing tag3_record _ _ ltac:(cbn; lia) Hrun).
  apply rt_step. exact Hstep.
Defined.
